(** * goteststats: fair attribution of wall-clock time to Go tests

    A shallow embedding of [main.go].  The program reads the event stream
    of [go test -json], keeps two maps from test names to heap-allocated
    [RunningTest] records ([allTests], [runningTests]) and, on every
    event, advances the time accumulators of the records that are
    currently running.

    The records are shared through pointers (a record is reachable from
    both maps, from its children and from its parent), so the embedding
    keeps an explicit store: an address is the allocation index of a
    record, and the two maps hold addresses. *)

From Stdlib Require Import ZArith Lia Ascii String.
From stdpp Require Import gmap strings list fin_maps sorting.

Local Open Scope Z_scope.

(** ** Results of fallible code *)

(** A Go function either returns or panics; [OutOfFuel] is the answer of
    the one recursive function of the program ([stopSibling]) when the
    recursion budget of the embedding is used up. *)
Inductive Result (A : Type) : Type :=
| Ok (a : A)
| Panic (msg : string)
| OutOfFuel.
Arguments Ok {A} a.
Arguments Panic {A} msg.
Arguments OutOfFuel {A}.

Definition bind {A B} (r : Result A) (k : A → Result B) : Result B :=
  match r with
  | Ok a => k a
  | Panic msg => Panic msg
  | OutOfFuel => OutOfFuel
  end.

Notation "'do' x <- e ; k" := (bind e (λ x, k))
  (at level 10, x name, e at level 100, k at level 200).

Fixpoint foldResult {A S} (f : A → S → Result S) (l : list A) (s : S) : Result S :=
  match l with
  | [] => Ok s
  | a :: l' => do s' <- f a s; foldResult f l' s'
  end.

(** ** time.Time and time.Duration *)

(** A [time.Duration] is an [int64] count of nanoseconds.  A [time.Time]
    decoded from JSON carries no monotonic reading; it is modelled by the
    instant it denotes, in nanoseconds. *)
Definition minDuration : Z := - 2 ^ 63.
Definition maxDuration : Z := 2 ^ 63 - 1.
Definition Millisecond : Z := 1000000.

Definition inDuration (d : Z) : Prop := minDuration ≤ d ≤ maxDuration.

(** Two's complement wrap-around of [int64] arithmetic. *)
Definition wrap64 (z : Z) : Z := (z + 2 ^ 63) mod 2 ^ 64 - 2 ^ 63.

(** [t.Sub(u)]: the difference, saturated to the range of a duration. *)
Definition Sub (t u : Z) : Z :=
  if t - u <? minDuration then minDuration
  else if maxDuration <? t - u then maxDuration
  else t - u.

(** [lessThanHalf(x, y)] of package time: [uint64(x)+uint64(x) < uint64(y)]. *)
Definition lessThanHalf (x y : Z) : bool :=
  ((x mod 2 ^ 64 + x mod 2 ^ 64) mod 2 ^ 64 <? y mod 2 ^ 64).

(** [d.Round(m)] of package time: nearest multiple of [m], halfway values
    away from zero, saturating. *)
Definition Round (d m : Z) : Z :=
  if m <=? 0 then d
  else
    let r := Z.rem d m in
    if d <? 0 then
      let r := wrap64 (- r) in
      if lessThanHalf r m then wrap64 (d + r)
      else
        let d1 := wrap64 (wrap64 (d - m) + r) in
        if d1 <? d then d1 else minDuration
    else
      if lessThanHalf r m then wrap64 (d - r)
      else
        let d1 := wrap64 (wrap64 (d + m) - r) in
        if d <? d1 then d1 else maxDuration.

(** ** Events and test records *)

Record Event := mkEvent {
  Time : Z;
  Action : string;
  Test : string;
  EventPackage : string
}.

Definition addr := nat.

Record RunningTest := mkRunningTest {
  Name : string;
  Package : string;
  LastTimestamp : Z;
  AdjustedExecutionTime : Z;
  TotalExecutionTime : Z;
  Children : list addr;
  Parent : option addr;
  AssumedStopped : bool;
  Parallel : bool
}.

(** The zero value of the struct. *)
Definition zeroTest : RunningTest :=
  mkRunningTest "" "" 0 0 0 [] None false false.

#[global] Instance RunningTest_inhabited : Inhabited RunningTest := populate zeroTest.

Definition setLastTimestamp (t : Z) (r : RunningTest) : RunningTest :=
  mkRunningTest (Name r) (Package r) t (AdjustedExecutionTime r)
    (TotalExecutionTime r) (Children r) (Parent r) (AssumedStopped r) (Parallel r).

Definition setTimes (t adjusted total : Z) (r : RunningTest) : RunningTest :=
  mkRunningTest (Name r) (Package r) t adjusted total
    (Children r) (Parent r) (AssumedStopped r) (Parallel r).

Definition setChildren (c : list addr) (r : RunningTest) : RunningTest :=
  mkRunningTest (Name r) (Package r) (LastTimestamp r) (AdjustedExecutionTime r)
    (TotalExecutionTime r) c (Parent r) (AssumedStopped r) (Parallel r).

Definition setParent (p : option addr) (r : RunningTest) : RunningTest :=
  mkRunningTest (Name r) (Package r) (LastTimestamp r) (AdjustedExecutionTime r)
    (TotalExecutionTime r) (Children r) p (AssumedStopped r) (Parallel r).

Definition setAssumedStopped (b : bool) (r : RunningTest) : RunningTest :=
  mkRunningTest (Name r) (Package r) (LastTimestamp r) (AdjustedExecutionTime r)
    (TotalExecutionTime r) (Children r) (Parent r) b (Parallel r).

Definition setParallel (b : bool) (r : RunningTest) : RunningTest :=
  mkRunningTest (Name r) (Package r) (LastTimestamp r) (AdjustedExecutionTime r)
    (TotalExecutionTime r) (Children r) (Parent r) (AssumedStopped r) b.

(** ** The program state *)

(** [heap] is the store of records in allocation order; [allTests] and
    [runningTests] are the two global maps; [stdout] collects the warning
    lines printed while events are processed. *)
Record State := mkState {
  heap : list RunningTest;
  allTests : gmap string addr;
  runningTests : gmap string addr;
  stdout : list string
}.

Definition initState : State := mkState [] ∅ ∅ [].

Definition withHeap (h : list RunningTest) (s : State) : State :=
  mkState h (allTests s) (runningTests s) (stdout s).

Definition withRunning (m : gmap string addr) (s : State) : State :=
  mkState (heap s) (allTests s) m (stdout s).

Definition printLine (line : string) (s : State) : State :=
  mkState (heap s) (allTests s) (runningTests s) (stdout s ++ [line]).

(** Every pointer the program holds was returned by an allocation, so a
    dereference reads an existing record; [load] is total and the default
    is not observed on well-formed states. *)
Definition load (s : State) (a : addr) : RunningTest := heap s !!! a.

Definition modify (a : addr) (f : RunningTest → RunningTest) (s : State) : State :=
  withHeap (alter f a (heap s)) s.

(** The values a [range runningTests] visits, in one fixed order.  Go
    leaves the order unspecified; the loops that use [running] do not
    depend on it (see [updateRunningTests_order] and [updateAll_order]
    below), the one loop
    that does ([handleRun]'s search for a sibling) takes its order as an
    argument. *)
Definition running (s : State) : list addr := (map_to_list (runningTests s)).*2.

(** The counting loop shared by [updateRunningTests] and
    [updateExecutionTimes]. *)
Definition activeCount (s : State) : nat :=
  length (filter (λ a, AssumedStopped (load s a) = false) (running s)).

Definition divideByZero : string := "runtime error: integer divide by zero".
Definition nilDereference : string :=
  "runtime error: invalid memory address or nil pointer dereference".

(** The three assignments that end both update functions. *)
Definition advance (now : Z) (count : nat) (r : RunningTest) : Result RunningTest :=
  if decide (count = 0%nat) then Panic divideByZero
  else
    let d := Sub now (LastTimestamp r) in
    Ok (setTimes now
          (wrap64 (AdjustedExecutionTime r + Z.quot d (Z.of_nat count)))
          (wrap64 (TotalExecutionTime r + d)) r).

Definition updateExecutionTimesWithCount (runningTest : addr) (event : Event)
    (count : nat) (s : State) : Result State :=
  if AssumedStopped (load s runningTest) then Ok s
  else
    do r <- advance (Time event) count (load s runningTest);
    Ok (modify runningTest (λ _, r) s).

Definition updateExecutionTimes (runningTest : addr) (event : Event)
    (s : State) : Result State :=
  if AssumedStopped (load s runningTest) then Ok s
  else
    let count := activeCount s in
    do r <- advance (Time event) count (load s runningTest);
    Ok (modify runningTest (λ _, r) s).

Definition updateRunningTests (event : Event) (s : State) : Result State :=
  let count := activeCount s in
  foldResult (λ a s, updateExecutionTimesWithCount a event count s) (running s) s.

(** ** Hierarchy resolver *)

(** [\S] of Go's regexp syntax: anything but tab, line feed, form feed,
    carriage return and space. *)
Definition isSpace (c : ascii) : bool :=
  match c with
  | "009"%char | "010"%char | "012"%char | "013"%char | " "%char => true
  | _ => false
  end.

Fixpoint allNonSpace (s : string) : bool :=
  match s with
  | EmptyString => true
  | String c s' => negb (isSpace c) && allNonSpace s'
  end.

(** Splits [s] at its last ['/'] that is followed by at least one
    character: the split the greedy [\S+] before the ['/'] of
    [subTestRegexp] settles on. *)
Fixpoint splitLastSlash (s : string) : option (string * string) :=
  match s with
  | EmptyString => None
  | String c rest =>
      match splitLastSlash rest with
      | Some (p, leaf) => Some (String c p, leaf)
      | None =>
          if decide (c = "/"%char ∧ rest ≠ EmptyString)
          then Some (EmptyString, rest) else None
      end
  end.

(** [subTestRegexp] is [^(?P<parent>\S+)/\S+$]; [isSubTest] returns the
    submatch named [parent] and whether the name matched at all. *)
Definition isSubTest (test : string) : string * bool :=
  if allNonSpace test then
    match splitLastSlash test with
    | Some (parent, _) =>
        if decide (parent = EmptyString) then (EmptyString, false) else (parent, true)
    | None => (EmptyString, false)
    end
  else (EmptyString, false).

(** [test] matches [^(?P<parent>\S+)/\S+$] with [parent] as the text of
    the group. *)
Definition matchesSubTest (test parent : string) : Prop :=
  ∃ leaf, test = parent +:+ String "/" leaf ∧
          parent ≠ EmptyString ∧ leaf ≠ EmptyString ∧ allNonSpace test = true.

(** [strings.HasPrefix(s, prefix)]. *)
Definition HasPrefix (s prefix : string) : bool := String.prefix prefix s.

(** [sort.Slice(names, func(i, j) { return len(names[i]) > len(names[j]) })]:
    longest names first.  The sort of Go is not stable and the names come
    from a map; the search that follows does not depend on either (see
    [resolveParent_search_order] below). *)
Fixpoint insertByLength (x : string) (l : list string) : list string :=
  match l with
  | [] => [x]
  | y :: l' =>
      if (String.length y <? String.length x)%nat then x :: y :: l'
      else y :: insertByLength x l'
  end.

Definition sortByLength (l : list string) : list string :=
  foldr insertByLength [] l.


(** Lines 124 to 145 of [handleRun]: the parent of a subtest is the
    literal parent when that is a known test, else the longest known name
    that is a prefix of the subtest's name up to a ['/']. *)
Definition resolveParent (event : Event) (parent : string) (s : State) : Result string :=
  match allTests s !! parent with
  | Some _ => Ok parent
  | None =>
      let names := sortByLength (map_to_list (allTests s)).*1 in
      let parent :=
        match List.find (λ name, HasPrefix (Test event) (name +:+ "/")) names with
        | Some name => name
        | None => parent
        end in
      if decide (parent = EmptyString)
      then Panic ("Parent test not found for subtest: " +:+ Test event)
      else Ok parent
  end.

(** ** Sibling inference *)

Definition insertRunning (name : string) (a : addr) (s : State) : State :=
  withRunning (<[name := a]> (runningTests s)) s.

Definition deleteRunning (name : string) (s : State) : State :=
  withRunning (delete name (runningTests s)) s.

(** [allTests[name]] used as a pointer: a missing key yields nil. *)
Definition lookupAll (name : string) (s : State) : Result addr :=
  match allTests s !! name with
  | Some a => Ok a
  | None => Panic nilDereference
  end.

(** [stopSibling] walks up the parent chain of [potentialSibling]; [fuel]
    bounds the walk. *)
Fixpoint stopSibling (fuel : nat) (event : Event) (runningTest potentialSibling : addr)
    (parent : string) (s : State) : Result (bool * State) :=
  match fuel with
  | O => OutOfFuel
  | S fuel =>
      match Parent (load s potentialSibling) with
      | None => Ok (false, s)
      | Some p =>
          if bool_decide (Name (load s p) = parent)
             && negb (Parallel (load s runningTest))
             && negb (AssumedStopped (load s runningTest))
          then
            do s <- updateExecutionTimes runningTest event s;
            let s := modify runningTest (setAssumedStopped true) s in
            do new <- lookupAll (Test event) s;
            let s := modify new (setParent (Some p)) s in
            let s := modify p (λ r, setChildren (Children r ++ [new]) r) s in
            Ok (true, insertRunning (Test event) new s)
          else
            match Parent (load s p) with
            | Some _ => stopSibling fuel event runningTest p parent s
            | None => Ok (false, s)
            end
      end
  end.

(** The loop of lines 168 to 172, visiting the running tests in [order]. *)
Fixpoint stopSiblings (order : list addr) (event : Event) (parent : string)
    (s : State) : Result (bool * State) :=
  match order with
  | [] => Ok (false, s)
  | runningTest :: order =>
      do r <- stopSibling (S (length (heap s))) event runningTest runningTest parent s;
      if r.1 then Ok r else stopSiblings order event parent r.2
  end.

(** ** Event handlers *)

Definition newTest (event : Event) : RunningTest :=
  mkRunningTest (Test event) (EventPackage event) (Time event) 0 0 [] None false false.

Definition handleRun (order : list addr) (event : Event) (s : State) : Result State :=
  let new := length (heap s) in
  let s := mkState (heap s ++ [newTest event]) (<[Test event := new]> (allTests s))
             (runningTests s) (stdout s) in
  let '(parent, subtest) := isSubTest (Test event) in
  let finish (s : State) : Result State :=
    do s <- updateRunningTests event s;
    Ok (insertRunning (Test event) new s) in
  if subtest then
    do parent <- resolveParent event parent s;
    match runningTests s !! parent with
    | Some runningParent =>
        let s := modify new (setParent (Some runningParent)) s in
        let s := modify runningParent (λ r, setChildren (Children r ++ [new]) r) s in
        if decide (length (Children (load s runningParent)) = 1%nat) then
          do s <- updateExecutionTimes runningParent event s;
          let s := deleteRunning (Name (load s runningParent)) s in
          Ok (insertRunning (Test event) new s)
        else
          Panic ("Running parent test has multiple running children: "
                 +:+ Name (load s runningParent))
    | None =>
        do r <- stopSiblings order event parent s;
        if r.1 then Ok r.2 else finish r.2
    end
  else finish s.

Definition handlePause (event : Event) (s : State) : Result State :=
  match runningTests s !! Test event with
  | None =>
      Ok (printLine ("WARNING: Paused test not found in running tests: " +:+ Test event) s)
  | Some pausedTest =>
      let s := modify pausedTest (setParallel true) s in
      let s := modify pausedTest (setAssumedStopped false) s in
      do s <- updateRunningTests event s;
      Ok (deleteRunning (Test event) s)
  end.

Definition handleCont (event : Event) (s : State) : Result State :=
  match allTests s !! Test event with
  | None =>
      Ok (printLine ("WARNING: Continued test not found in tests: " +:+ Test event) s)
  | Some test =>
      do s <- foldResult (λ a s, updateExecutionTimes a event s) (running s) s;
      let s := modify test (setLastTimestamp (Time event)) s in
      let s := modify test (setAssumedStopped false) s in
      Ok (insertRunning (Test event) test s)
  end.

(** Removal of the first occurrence of the pointer, as the loop of lines
    290 to 295 does. *)
Fixpoint removeChild (test : addr) (children : list addr) : list addr :=
  match children with
  | [] => []
  | child :: children' =>
      if decide (child = test) then children' else child :: removeChild test children'
  end.

Definition handleStop (event : Event) (s : State) : Result State :=
  match runningTests s !! Test event with
  | None =>
      Ok (printLine ("WARNING: Stopped test not found in running tests: " +:+ Test event) s)
  | Some test =>
      match Parent (load s test) with
      | Some parent =>
          do s <-
            match length (Children (load s parent)) with
            | O => Panic ("Parent test has no children: " +:+ Name (load s parent))
            | S O =>
                do s <- updateExecutionTimes test event s;
                let s := modify parent (setChildren []) s in
                let s := insertRunning (Name (load s parent)) parent s in
                Ok (modify parent (setLastTimestamp (Time event)) s)
            | _ =>
                do s <- (if AssumedStopped (load s test) then Ok s
                         else updateRunningTests event s);
                Ok (modify parent (λ r, setChildren (removeChild test (Children r)) r) s)
            end;
          Ok (deleteRunning (Test event) s)
      | None =>
          do s <- updateRunningTests event s;
          Ok (deleteRunning (Test event) s)
      end
  end.

(** The body of the reading loop of [main], for one decoded event. *)
Definition processEvent (order : list addr) (event : Event) (s : State) : Result State :=
  if decide (Test event = EmptyString) then Ok s
  else if decide (Action event = "run") then handleRun order event s
  else if decide (Action event = "pause") then handlePause event s
  else if decide (Action event = "cont") then handleCont event s
  else if decide (Action event = "pass" ∨ Action event = "skip") then handleStop event s
  else if decide (Action event = "output" ∨ Action event = "start") then Ok s
  else Panic ("Unknown action: " +:+ Action event).

(** ** Runs of the reading loop *)

(** [run s events s']: the loop of [main] started in [s] reads [events]
    without panicking and ends in [s'].  Every iteration is free to visit
    [runningTests] in any order. *)
Inductive run : State → list Event → State → Prop :=
| run_nil s : run s [] s
| run_cons s order event s' events s'' :
    order ≡ₚ running s →
    processEvent order event s = Ok s' →
    run s' events s'' →
    run s (event :: events) s''.

(** The loop with the map visited in the order of [running]. *)
Fixpoint exec (events : list Event) (s : State) : Result State :=
  match events with
  | [] => Ok s
  | event :: events => do s' <- processEvent (running s) event s; exec events s'
  end.

(** [orderFree event s]: the handler of [event] in [s] never reaches the
    one loop whose outcome depends on the iteration order, or that loop
    has at most one test to visit. *)
Definition orderFree (event : Event) (s : State) : bool :=
  bool_decide (length (running s) ≤ 1)%nat
  || negb (bool_decide (Action event = "run"))
  || negb (isSubTest (Test event)).2.

(** [exec] that gives up (as [OutOfFuel]) at the first event whose
    outcome could depend on the iteration order. *)
Fixpoint execFree (events : list Event) (s : State) : Result State :=
  match events with
  | [] => Ok s
  | event :: events =>
      if orderFree event s then
        do s' <- processEvent (running s) event s; execFree events s'
      else OutOfFuel
  end.

(** ** Report generator *)

Definition resultsToList : nat := 50.

(** One printed line: the package, the name, the rounded adjusted time
    and, when the rounded times differ, the rounded total time with the
    value printed after [parallel:]. *)
Record ReportLine := mkReportLine {
  linePackage : string;
  lineName : string;
  lineAdjusted : Z;
  lineTotal : option (Z * Z)
}.

(** The body of the printing loop, lines 101 to 109. *)
Definition reportLine (test : RunningTest) : Result ReportLine :=
  let adjustedRounded := Round (AdjustedExecutionTime test) Millisecond in
  let totalRounded := Round (TotalExecutionTime test) Millisecond in
  if decide (adjustedRounded ≠ totalRounded) then
    if decide (adjustedRounded = 0) then Panic divideByZero
    else Ok (mkReportLine (Package test) (Name test) adjustedRounded
               (Some (totalRounded, wrap64 (Z.quot totalRounded adjustedRounded))))
  else Ok (mkReportLine (Package test) (Name test) adjustedRounded None).

Definition adjustedOf (s : State) (name : string) : Z :=
  match allTests s !! name with
  | Some a => AdjustedExecutionTime (load s a)
  | None => 0
  end.

Definition totalOf (s : State) (name : string) : Z :=
  match allTests s !! name with
  | Some a => TotalExecutionTime (load s a)
  | None => 0
  end.

(** What [sort.Slice] may leave in [keys]: the names of [allTests], no
    name placed before one with a larger adjusted time. *)
Definition sortedKeys (s : State) (keys : list string) : Prop :=
  keys ≡ₚ (map_to_list (allTests s)).*1 ∧
  StronglySorted (λ k1 k2, adjustedOf s k2 ≤ adjustedOf s k1) keys.

Fixpoint mapResult {A B} (f : A → Result B) (l : list A) : Result (list B) :=
  match l with
  | [] => Ok []
  | a :: l' => do b <- f a; do bs <- mapResult f l'; Ok (b :: bs)
  end.

(** The lines printed for the first [resultsToList] names of [keys]. *)
Definition report (keys : list string) (s : State) : Result (list ReportLine) :=
  mapResult (λ k, do a <- lookupAll k s; reportLine (load s a))
    (take resultsToList keys).

(** ** Well-formed states and the effect of one event *)

(** The shape every state of a run has: the maps hold addresses of
    allocated records, filed under the record's own name, and a parent
    was allocated before its child. *)
Record wf (s : State) : Prop := mkWf {
  wf_all : ∀ k a, allTests s !! k = Some a →
                  (a < length (heap s))%nat ∧ Name (load s a) = k;
  wf_running : ∀ k a, runningTests s !! k = Some a →
                      (a < length (heap s))%nat ∧ Name (load s a) = k;
  wf_parent : ∀ a p, (a < length (heap s))%nat →
                     Parent (load s a) = Some p → (p < a)%nat
}.

(** The assignments the handlers of the event [ev] make to a record, the
    record at address [a], each with what the code has checked before
    making it. *)
Inductive effect (ev : Event) (a : addr) : RunningTest → RunningTest → Prop :=
| eff_advance r count r' :
    AssumedStopped r = false → advance (Time ev) count r = Ok r' →
    effect ev a r r'
| eff_clock r :
    effect ev a r (setLastTimestamp (Time ev) r)
| eff_parent r p :
    (p < a)%nat → effect ev a r (setParent (Some p) r)
| eff_children r c :
    effect ev a r (setChildren c r)
| eff_dormant r :
    Parallel r = false → AssumedStopped r = false →
    effect ev a r (setAssumedStopped true r)
| eff_pause r :
    Action ev = "pause" → Name r = Test ev →
    effect ev a r (setAssumedStopped false (setParallel true r))
| eff_cont r :
    Action ev = "cont" → Name r = Test ev →
    effect ev a r (setAssumedStopped false r).

(** [s'] comes from [s] by assignments of the handlers of [ev] and by
    allocations of the record of [ev]. *)
Definition evolves (ev : Event) (s s' : State) : Prop :=
  (length (heap s) ≤ length (heap s'))%nat ∧
  (∀ a, (a < length (heap s))%nat → rtc (effect ev a) (load s a) (load s' a)) ∧
  (∀ a, (length (heap s) ≤ a < length (heap s'))%nat →
        rtc (effect ev a) (newTest ev) (load s' a)).

(** A well-formed state reached from [s0] within the handling of [ev]. *)
Definition good (ev : Event) (s0 s : State) : Prop := wf s ∧ evolves ev s0 s.

(** [s'] differs from [s] in the three time fields of records only. *)
Definition retimed (s s' : State) : Prop :=
  allTests s' = allTests s ∧ runningTests s' = runningTests s ∧
  stdout s' = stdout s ∧ length (heap s') = length (heap s) ∧
  ∀ b, ∃ t x y, load s' b = setTimes t x y (load s b).

(** The record [advance] returns when it returns. *)
Definition advanced (now : Z) (count : nat) (r : RunningTest) : RunningTest :=
  setTimes now
    (wrap64 (AdjustedExecutionTime r + Z.quot (Sub now (LastTimestamp r)) (Z.of_nat count)))
    (wrap64 (TotalExecutionTime r + Sub now (LastTimestamp r))) r.

(** ** Conservation *)

(** The running tests that are not assumed stopped. *)
Definition active (s : State) : list addr :=
  filter (λ a, AssumedStopped (load s a) = false) (running s).

(** What the record at [a] gained in adjusted time between [s] and [s']:
    the [int64] difference after - before. *)
Definition increment (s s' : State) (a : addr) : Z :=
  wrap64 (AdjustedExecutionTime (load s' a) - AdjustedExecutionTime (load s a)).

Definition sumZ (l : list Z) : Z := foldr Z.add 0 l.

(** ** Invariants of a run *)

(** No record is both parallel and assumed stopped. *)
Definition exclusive (s : State) : Prop :=
  ∀ a, (a < length (heap s))%nat →
       Parallel (load s a) = true → AssumedStopped (load s a) = false.

(** [ev] is a pause event that [handlePause] accepts in [s]: it names
    the running test whose record is at [a]. *)
Definition pausedBy (ev : Event) (s : State) (a : addr) : Prop :=
  Test ev ≠ EmptyString ∧ Action ev = "pause" ∧ runningTests s !! Test ev = Some a.

(** The two accumulators of [r] are in the range of [int64]. *)
Definition ranged (r : RunningTest) : Prop :=
  inDuration (AdjustedExecutionTime r) ∧ inDuration (TotalExecutionTime r).

(** The accumulators of every record are consistent with the time [now]
    of the last event read, for events no earlier than [lo]. *)
Definition timely (lo now : Z) (r : RunningTest) : Prop :=
  lo ≤ LastTimestamp r ≤ now ∧
  0 ≤ AdjustedExecutionTime r ≤ TotalExecutionTime r ∧
  TotalExecutionTime r ≤ LastTimestamp r - lo.

(** Timestamps never decrease, starting from [now]. *)
Fixpoint nondecreasing (now : Z) (events : list Event) : Prop :=
  match events with
  | [] => True
  | ev :: events => now ≤ Time ev ∧ nondecreasing (Time ev) events
  end.

(** [ev] is not a pause or a continue of the test [name]. *)
Definition leavesAsleep (name : string) (ev : Event) : Prop :=
  Test ev = name → Action ev ≠ "pause" ∧ Action ev ≠ "cont".

(** [r] is assumed stopped and has the name and the two times of [r0]. *)
Definition frozen (r0 r : RunningTest) : Prop :=
  Name r = Name r0 ∧ AssumedStopped r = true ∧
  AdjustedExecutionTime r = AdjustedExecutionTime r0 ∧
  TotalExecutionTime r = TotalExecutionTime r0.

(** ** Scenarios *)

Definition ms (n : Z) : Z := n * Millisecond.

Definition event (action test : string) (t : Z) : Event := mkEvent t action test "pkg".

(** Two top-level tests, fully concurrent. *)
Definition scenarioB : list Event :=
  [event "run" "A" (ms 0); event "run" "B" (ms 0);
   event "pass" "A" (ms 10); event "pass" "B" (ms 10)].

(** One parent with one serial subtest. *)
Definition scenarioC : list Event :=
  [event "run" "P" (ms 0); event "run" "P/a" (ms 5);
   event "pass" "P/a" (ms 15); event "pass" "P" (ms 20)].

(** A second subtest starts although the first never reported its end. *)
Definition scenarioE : list Event :=
  [event "run" "P" (ms 0); event "run" "P/a" (ms 0); event "run" "P/a2" (ms 10)].

(** The stream from [run A@0] to [run D@2^63ns]: 292 years. *)
Definition scenarioLong : list Event :=
  [event "run" "A" 0; event "run" "B" 0;
   event "run" "C" (2 ^ 62); event "run" "D" (2 ^ 63)].

(** One test alone. *)
Definition scenarioAlone : list Event := [event "run" "A" 0].

(** A subtest calls [t.Parallel()]: it is paused, continued later, and a
    sibling starts while it runs. *)
Definition scenarioSub : list Event :=
  [event "run" "P" (ms 0); event "run" "P/a" (ms 0)].

Definition pauseSub : Event := event "pause" "P/a" (ms 5).

Definition scenarioSubMore : list Event :=
  [event "cont" "P/a" (ms 6); event "run" "P/b" (ms 10)].

(** Three tests start at the same instant. *)
Definition scenarioThree : list Event :=
  [event "run" "A" 0; event "run" "B" 0; event "run" "C" 0].

(** A continuation of scenario E: a third subtest, the late end of the
    first, a pause of the third. *)
Definition scenarioEMore : list Event :=
  [event "run" "P/a3" (ms 20); event "pass" "P/a" (ms 30); event "pause" "P/a3" (ms 40)].


(** A subtest whose parent was never announced. *)
Definition orphanRun : Event := event "run" "X/y" (ms 0).

(** [A] runs 5ms next to one other test and 6ms next to three. *)
Definition scenarioRatio : list Event :=
  [event "run" "A" (ms 0); event "run" "B" (ms 0);
   event "run" "C" (ms 5); event "run" "D" (ms 5); event "pass" "A" (ms 11)].

(** Two tests share 0.6ms. *)
Definition scenarioShort : list Event :=
  [event "run" "A" 0; event "run" "B" 0; event "pass" "A" 600000].

(** [n] is an integer nearest to the ratio [p/q]. *)
Definition nearestInteger (n p q : Z) : Prop := 2 * Z.abs (p - n * q) ≤ Z.abs q.

(** The registry a handler looks the test of its event up in. *)
Definition expectedRegistry (action : string) (s : State) : gmap string addr :=
  if decide (action = "cont") then allTests s else runningTests s.

Definition warningOf (action test : string) : string :=
  if decide (action = "pause") then "WARNING: Paused test not found in running tests: " +:+ test
  else if decide (action = "cont") then "WARNING: Continued test not found in tests: " +:+ test
  else "WARNING: Stopped test not found in running tests: " +:+ test.

(** The state [exec] ends in, [initState] when [exec] does not return
    a state. *)
Definition finalState (events : list Event) : State :=
  match exec events initState with
  | Ok s => s
  | _ => initState
  end.

(** ** The registry and the parent chain *)

(** What the two maps hold besides: every record is filed in [allTests]
    under its name, every running name is a key of [allTests], and the
    empty name is no key. *)
Record tidy (s : State) : Prop := mkTidy {
  tidy_names : ∀ a, (a < length (heap s))%nat → is_Some (allTests s !! Name (load s a));
  tidy_running : ∀ k, is_Some (runningTests s !! k) → is_Some (allTests s !! k);
  tidy_nonempty : allTests s !! EmptyString = None
}.

(** [ancestor n s a]: the record [n] parents above [a]. *)
Fixpoint ancestor (n : nat) (s : State) (a : addr) : option addr :=
  match n with
  | O => Some a
  | S n =>
      match Parent (load s a) with
      | Some p => ancestor n s p
      | None => None
      end
  end.

(** The time of the last of [events], [now] when there is none. *)
Definition lastTime (now : Z) (events : list Event) : Z :=
  foldl (λ _ ev, Time ev) now events.

(** Lines 115 to 119 of [handleRun]: the record of the event's test is
    allocated and filed in [allTests]. *)
Definition allocate (event : Event) (s : State) : State :=
  mkState (heap s ++ [newTest event]) (<[Test event := length (heap s)]> (allTests s))
    (runningTests s) (stdout s).

(** [rt] is a test that [stopSibling] stops for a new subtest of
    [parent]: it is neither parallel nor assumed stopped, and one of its
    ancestors is named [parent]. *)
Definition eligible (s : State) (parent : string) (rt : addr) : Prop :=
  Parallel (load s rt) = false ∧ AssumedStopped (load s rt) = false ∧
  ∃ n p, ancestor (S n) s rt = Some p ∧ Name (load s p) = parent.

(** * Properties *)

(** Settles the [decide]s on closed equations between strings. *)
Ltac decide_strings :=
  repeat first
    [ rewrite decide_True in * by (first [reflexivity | by left | by right])
    | rewrite decide_False in * by (first [discriminate | by intros [?|?]]) ].

(** ** Duration arithmetic *)

Lemma wrap64_id z : inDuration z → wrap64 z = z.
Proof.
  unfold inDuration, wrap64, minDuration, maxDuration. intros H.
  rewrite Z.mod_small; lia.
Qed.

Lemma wrap64_over z : 2 ^ 63 ≤ z < 2 ^ 63 + 2 ^ 64 → wrap64 z = z - 2 ^ 64.
Proof.
  intros H. unfold wrap64.
  replace (z + 2 ^ 63) with ((z - 2 ^ 64 + 2 ^ 63) + 1 * 2 ^ 64) by lia.
  rewrite Z.mod_add by lia. rewrite Z.mod_small; lia.
Qed.

Lemma wrap64_under z : - 2 ^ 63 - 2 ^ 64 ≤ z < - 2 ^ 63 → wrap64 z = z + 2 ^ 64.
Proof.
  intros H. unfold wrap64.
  replace (z + 2 ^ 63) with ((z + 2 ^ 64 + 2 ^ 63) + (-1) * 2 ^ 64) by lia.
  rewrite Z.mod_add by lia. rewrite Z.mod_small; lia.
Qed.

Lemma lessThanHalf_small x y :
  0 ≤ x < 2 ^ 62 → 0 ≤ y < 2 ^ 63 → lessThanHalf x y = (2 * x <? y).
Proof.
  intros Hx Hy. unfold lessThanHalf.
  rewrite (Z.mod_small x), (Z.mod_small y), (Z.mod_small (x + x)) by lia.
  f_equal. lia.
Qed.

Lemma Round_Millisecond d :
  inDuration d →
  inDuration (Round d Millisecond) ∧
  (Round d Millisecond = 0 ∨ Round d Millisecond ≤ - Millisecond ∨
   Millisecond ≤ Round d Millisecond).
Proof.
  unfold Round, Millisecond, inDuration, minDuration, maxDuration. intros Hd.
  change (1000000 <=? 0) with false. cbv iota.
  pose proof (Z.quot_rem' d 1000000) as Hq.
  destruct (Z.ltb_spec d 0) as [Hneg|Hpos].
  - assert (-1000000 < Z.rem d 1000000 ≤ 0) as Hr.
    { pose proof (Z.rem_bound_abs d 1000000 ltac:(lia)).
      pose proof (Z.rem_sign_mul d 1000000 ltac:(lia)). nia. }
    set (r := Z.rem d 1000000) in *. set (q := Z.quot d 1000000) in *.
    rewrite (wrap64_id (- r)) by (unfold inDuration, minDuration, maxDuration; lia).
    rewrite lessThanHalf_small by lia.
    destruct (Z.ltb_spec (2 * - r) 1000000).
    + rewrite wrap64_id by (unfold inDuration, minDuration, maxDuration; lia). lia.
    + destruct (Z_le_gt_dec (- 2 ^ 63) (d - 1000000)) as [Hin|Hout].
      * rewrite (wrap64_id (d - 1000000)) by (unfold inDuration, minDuration, maxDuration; lia).
        rewrite wrap64_id by (unfold inDuration, minDuration, maxDuration; lia).
        destruct (Z.ltb_spec (d - 1000000 + - r) d); lia.
      * rewrite (wrap64_under (d - 1000000)) by lia.
        destruct (Z_le_gt_dec (- 2 ^ 63) (d - 1000000 + - r)) as [Hin'|Hout'].
        -- rewrite wrap64_over by lia.
           replace (d - 1000000 + 2 ^ 64 + - r - 2 ^ 64) with (d - 1000000 + - r) by lia.
           destruct (Z.ltb_spec (d - 1000000 + - r) d); lia.
        -- rewrite wrap64_id by (unfold inDuration, minDuration, maxDuration; lia).
           destruct (Z.ltb_spec (d - 1000000 + 2 ^ 64 + - r) d); lia.
  - assert (0 ≤ Z.rem d 1000000 < 1000000) as Hr.
    { pose proof (Z.rem_bound_pos d 1000000). lia. }
    set (r := Z.rem d 1000000) in *. set (q := Z.quot d 1000000) in *.
    rewrite lessThanHalf_small by lia.
    destruct (Z.ltb_spec (2 * r) 1000000).
    + rewrite wrap64_id by (unfold inDuration, minDuration, maxDuration; lia). lia.
    + destruct (Z_le_gt_dec (d + 1000000) (2 ^ 63 - 1)) as [Hin|Hout].
      * rewrite (wrap64_id (d + 1000000)) by (unfold inDuration, minDuration, maxDuration; lia).
        rewrite wrap64_id by (unfold inDuration, minDuration, maxDuration; lia).
        destruct (Z.ltb_spec d (d + 1000000 - r)); lia.
      * rewrite (wrap64_over (d + 1000000)) by lia.
        destruct (Z_le_gt_dec (d + 1000000 - r) (2 ^ 63 - 1)) as [Hin'|Hout'].
        -- rewrite wrap64_under by lia.
           replace (d + 1000000 - 2 ^ 64 - r + 2 ^ 64) with (d + 1000000 - r) by lia.
           destruct (Z.ltb_spec d (d + 1000000 - r)); lia.
        -- rewrite wrap64_id by (unfold inDuration, minDuration, maxDuration; lia).
           destruct (Z.ltb_spec d (d + 1000000 - 2 ^ 64 - r)); lia.
Qed.

Lemma quot_inDuration t a :
  inDuration t → (a ≤ -2 ∨ 2 ≤ a) → inDuration (Z.quot t a).
Proof.
  unfold inDuration, minDuration, maxDuration. intros Ht Ha.
  pose proof (Z.quot_rem' t a) as Hq.
  assert (a ≠ 0) as Hnz by lia.
  pose proof (Z.rem_bound_abs t a Hnz) as Hr.
  pose proof (Z.rem_sign_mul t a Hnz) as Hs.
  nia.
Qed.

(** ** Runs *)

Lemma Permutation_short {A} (l l' : list A) :
  l ≡ₚ l' → (length l' ≤ 1)%nat → l = l'.
Proof.
  intros Hp Hl. destruct l' as [|x [|y l']]; simpl in Hl; try lia.
  - by apply Permutation_nil_r in Hp.
  - by apply Permutation_singleton_r in Hp.
Qed.

Lemma processEvent_orderFree order event s :
  order ≡ₚ running s → orderFree event s = true →
  processEvent order event s = processEvent (running s) event s.
Proof.
  intros Hp Hfree. unfold orderFree in Hfree.
  apply orb_true_iff in Hfree as [Hfree|Hsub].
  - apply orb_true_iff in Hfree as [Hlen|Hact].
    + apply bool_decide_eq_true in Hlen.
      by rewrite (Permutation_short _ _ Hp Hlen).
    + apply negb_true_iff, bool_decide_eq_false in Hact.
      unfold processEvent. repeat case_decide; done.
  - apply negb_true_iff in Hsub.
    unfold processEvent. repeat case_decide; try done.
    unfold handleRun. destruct (isSubTest (Test event)) as [parent subtest].
    simpl in Hsub. by rewrite Hsub.
Qed.

Lemma exec_run events s s' : exec events s = Ok s' → run s events s'.
Proof.
  revert s. induction events as [|e events IH]; intros s H; simpl in H.
  - injection H as <-. constructor.
  - destruct (processEvent (running s) e s) as [s1| |] eqn:Hstep; try done.
    simpl in H. by eapply run_cons; [reflexivity|exact Hstep|apply IH].
Qed.

Lemma execFree_exec events s s' : execFree events s = Ok s' → exec events s = Ok s'.
Proof.
  revert s. induction events as [|e events IH]; intros s H; simpl in *; [done|].
  destruct (orderFree e s); [|done].
  destruct (processEvent (running s) e s) as [s1| |]; simpl in *; auto.
Qed.

(** A run that [execFree] completes has one possible outcome. *)
Lemma execFree_unique events s s' :
  execFree events s = Ok s' → ∀ s'', run s events s'' → s'' = s'.
Proof.
  revert s. induction events as [|e events IH]; intros s H s'' Hrun; simpl in H.
  - inversion Hrun; subst. by injection H.
  - inversion Hrun as [|? order ? s1 ? ? Hp Hstep Hrest]; subst.
    destruct (orderFree e s) eqn:Hfree; [|done].
    rewrite (processEvent_orderFree _ _ _ Hp Hfree) in Hstep.
    rewrite Hstep in H. simpl in H. by eapply IH.
Qed.

(** ** Scenarios of the specification *)

Lemma scenarioB_free : execFree scenarioB initState = Ok (finalState scenarioB).
Proof. vm_compute. reflexivity. Qed.

Lemma scenarioB_run : run initState scenarioB (finalState scenarioB).
Proof. apply exec_run, execFree_exec, scenarioB_free. Qed.

(** C3, as amended: after [run A@0], [run B@0], [pass A@10], [pass B@10]
    each of the two concurrent tests has an adjusted time of 5ms, half of
    the 10ms they shared, and a total time of 10ms. *)
Theorem scenario_B_concurrent s :
  run initState scenarioB s →
  adjustedOf s "A" = ms 5 ∧ adjustedOf s "B" = ms 5 ∧
  totalOf s "A" = ms 10 ∧ totalOf s "B" = ms 10.
Proof.
  intros H. rewrite (execFree_unique _ _ _ scenarioB_free _ H).
  vm_compute. done.
Qed.

Lemma scenario_B_concurrent_witness :
  run initState scenarioB (finalState scenarioB) ∧
  adjustedOf (finalState scenarioB) "A" = ms 5 ∧
  adjustedOf (finalState scenarioB) "B" = ms 5 ∧
  totalOf (finalState scenarioB) "A" = ms 10 ∧
  totalOf (finalState scenarioB) "B" = ms 10.
Proof.
  assert (H : run initState scenarioB (finalState scenarioB)).
  { apply exec_run. vm_compute. reflexivity. }
  split; [exact H|]. exact (scenario_B_concurrent _ H).
Defined.

(** C3, as stated, fails: the run of scenario B ends with an adjusted
    time of 5ms for [A], not 10ms. *)
Lemma scenario_B_adjusted_not_10ms :
  ¬ (∀ s, run initState scenarioB s →
       adjustedOf s "A" = ms 10 ∧ adjustedOf s "B" = ms 10 ∧
       totalOf s "A" = ms 10 ∧ totalOf s "B" = ms 10).
Proof.
  intros H. destruct (H _ scenarioB_run) as [HA _].
  vm_compute in HA. discriminate.
Qed.

Lemma scenarioC_free : execFree scenarioC initState = Ok (finalState scenarioC).
Proof. vm_compute. reflexivity. Qed.

Lemma scenarioC_prefix2_free :
  execFree (take 2 scenarioC) initState = Ok (finalState (take 2 scenarioC)).
Proof. vm_compute. reflexivity. Qed.

Lemma scenarioC_prefix3_free :
  execFree (take 3 scenarioC) initState = Ok (finalState (take 3 scenarioC)).
Proof. vm_compute. reflexivity. Qed.

(** C4: in the run [run P@0], [run P/a@5], [pass P/a@15], [pass P@20]
    the parent has 5ms when its child starts and leaves the running
    tests, it comes back with its clock set to the child's end (15ms)
    and still 5ms, and the run ends with 10ms of adjusted time for both
    [P] and [P/a]. *)
Theorem scenario_C_serial_subtest s2 s3 s4 :
  run initState (take 2 scenarioC) s2 →
  run initState (take 3 scenarioC) s3 →
  run initState scenarioC s4 →
  (adjustedOf s2 "P" = ms 5 ∧ runningTests s2 !! "P" = None) ∧
  (adjustedOf s3 "P" = ms 5 ∧
   ∃ p, runningTests s3 !! "P" = Some p ∧ LastTimestamp (load s3 p) = ms 15) ∧
  (adjustedOf s4 "P" = ms 10 ∧ adjustedOf s4 "P/a" = ms 10).
Proof.
  intros H2 H3 H4.
  rewrite (execFree_unique _ _ _ scenarioC_prefix2_free _ H2).
  rewrite (execFree_unique _ _ _ scenarioC_prefix3_free _ H3).
  rewrite (execFree_unique _ _ _ scenarioC_free _ H4).
  split_and!; try (vm_compute; reflexivity).
  exists 0%nat. split; vm_compute; reflexivity.
Qed.

Lemma scenario_C_serial_subtest_witness :
  adjustedOf (finalState scenarioC) "P" = ms 10 ∧
  adjustedOf (finalState scenarioC) "P/a" = ms 10.
Proof.
  assert (H2 : run initState (take 2 scenarioC) (finalState (take 2 scenarioC))).
  { apply exec_run. vm_compute. reflexivity. }
  assert (H3 : run initState (take 3 scenarioC) (finalState (take 3 scenarioC))).
  { apply exec_run. vm_compute. reflexivity. }
  assert (H4 : run initState scenarioC (finalState scenarioC)).
  { apply exec_run. vm_compute. reflexivity. }
  exact (proj2 (proj2 (scenario_C_serial_subtest _ _ _ H2 H3 H4))).
Defined.

(** ** Anomalous events *)

(** C8: a pause, continue or finish event whose test is missing from the
    registry its handler consults (the running tests for pause and
    finish, all tests for continue) only prints its warning: the handler
    returns, and the store and both maps are what they were. *)
Theorem anomaly_dropped order ev s :
  Test ev ≠ EmptyString →
  Action ev ∈ ["pause"; "cont"; "pass"; "skip"] →
  expectedRegistry (Action ev) s !! Test ev = None →
  ∃ s', processEvent order ev s = Ok s' ∧
        heap s' = heap s ∧ allTests s' = allTests s ∧
        runningTests s' = runningTests s ∧
        stdout s' = stdout s ++ [warningOf (Action ev) (Test ev)].
Proof.
  intros Hne Hact Hmiss.
  assert (Hcases : Action ev = "pause" ∨ Action ev = "cont" ∨
                   Action ev = "pass" ∨ Action ev = "skip").
  { rewrite !elem_of_cons, elem_of_nil in Hact. tauto. }
  unfold processEvent, expectedRegistry, warningOf in *.
  rewrite decide_False by done.
  destruct Hcases as [Ha|[Ha|[Ha|Ha]]]; rewrite Ha in *; decide_strings.
  - unfold handlePause. rewrite Hmiss. eauto 10.
  - unfold handleCont. rewrite Hmiss. eauto 10.
  - unfold handleStop. rewrite Hmiss. eauto 10.
  - unfold handleStop. rewrite Hmiss. eauto 10.
Qed.

Lemma anomaly_dropped_witness :
  ∃ s', processEvent [] (event "pass" "ghost" (ms 3)) (finalState scenarioE) = Ok s' ∧
        heap s' = heap (finalState scenarioE) ∧
        allTests s' = allTests (finalState scenarioE) ∧
        runningTests s' = runningTests (finalState scenarioE) ∧
        stdout s' = stdout (finalState scenarioE) ++
                    [warningOf "pass" "ghost"].
Proof.
  apply (anomaly_dropped [] (event "pass" "ghost" (ms 3)) (finalState scenarioE)).
  - discriminate.
  - rewrite !elem_of_cons. tauto.
  - vm_compute. reflexivity.
Defined.

(** ** Hierarchy resolver *)

Lemma insertByLength_perm x l : insertByLength x l ≡ₚ x :: l.
Proof.
  induction l as [|y l IH]; simpl; [done|].
  case_match; [done|]. rewrite IH. apply Permutation_swap.
Qed.

Lemma sortByLength_perm l : sortByLength l ≡ₚ l.
Proof.
  induction l as [|x l IH]; simpl; [done|].
  by rewrite insertByLength_perm, IH.
Qed.

Lemma isSubTest_parent test parent :
  isSubTest test = (parent, true) → parent ≠ EmptyString.
Proof.
  unfold isSubTest. destruct (allNonSpace test); [|done].
  destruct (splitLastSlash test) as [[p leaf]|]; [|done].
  case_decide; [done|]. by intros [= <-].
Qed.

(** The test of line 142 never fires: [parent] still holds what the
    regular expression captured, which is not empty, unless the search
    replaced it by a key of [allTests]. *)
Lemma resolveParent_returns ev parent s :
  parent ≠ EmptyString → allTests s !! EmptyString = None →
  ∃ p, resolveParent ev parent s = Ok p ∧ p ≠ EmptyString.
Proof.
  intros Hparent Hkeys. unfold resolveParent.
  destruct (allTests s !! parent); [by exists parent|].
  destruct (List.find _ _) as [name|] eqn:Hfind.
  - apply find_some in Hfind as [Hin _].
    apply list_elem_of_In in Hin. rewrite sortByLength_perm in Hin.
    apply list_elem_of_fmap in Hin as [[k a] [-> Hin]].
    apply elem_of_map_to_list in Hin. simpl.
    assert (k ≠ EmptyString) by (intros ->; congruence).
    rewrite decide_False by done. by exists k.
  - rewrite decide_False by done. by exists parent.
Qed.

(** C6, the behaviour of the code: a [run] event for the subtest [X/y]
    read in the initial state, where there is no test [X] and no known
    name is a prefix of [X/y] up to a ['/'], does not panic; [X/y] is
    registered as a running test without a parent. *)
Theorem orphan_subtest_accepted :
  isSubTest (Test orphanRun) = ("X", true) ∧
  allTests initState !! "X" = None ∧
  (∀ name, is_Some (allTests initState !! name) →
           HasPrefix (Test orphanRun) (name +:+ "/") = false) ∧
  ∃ s, run initState [orphanRun] s ∧
       runningTests s !! "X/y" = Some 0%nat ∧
       Parent (load s 0%nat) = None.
Proof.
  split_and!.
  - vm_compute. reflexivity.
  - done.
  - intros name [a Ha]. simpl in Ha. by rewrite lookup_empty in Ha.
  - exists (finalState [orphanRun]). split_and!.
    + apply exec_run. vm_compute. reflexivity.
    + vm_compute. reflexivity.
    + vm_compute. reflexivity.
Qed.

(** ** Report generator *)

Lemma scenarioShort_free : execFree scenarioShort initState = Ok (finalState scenarioShort).
Proof. vm_compute. reflexivity. Qed.

(** C10: there is a run (two tests sharing 0.6ms) after which a test of
    [allTests] has an adjusted time that rounds to 0ms and a total time
    that rounds to 1ms, and whatever order the sort leaves the names in,
    printing the report divides by zero. *)
Theorem report_divides_by_zero :
  ∃ s, run initState scenarioShort s ∧
       (∃ a, allTests s !! "A" = Some a ∧
             Round (AdjustedExecutionTime (load s a)) Millisecond = 0 ∧
             Round (TotalExecutionTime (load s a)) Millisecond = Millisecond) ∧
       (∃ keys, sortedKeys s keys) ∧
       ∀ keys, sortedKeys s keys → report keys s = Panic divideByZero.
Proof.
  exists (finalState scenarioShort). split_and!.
  - apply exec_run, execFree_exec, scenarioShort_free.
  - exists 0%nat. split_and!; vm_compute; reflexivity.
  - exists ["A"; "B"]. split.
    + assert ((map_to_list (allTests (finalState scenarioShort))).*1 = ["A"; "B"]) as ->
        by (vm_compute; reflexivity).
      done.
    + repeat constructor; vm_compute; discriminate.
  - intros keys [Hperm _].
    assert ((map_to_list (allTests (finalState scenarioShort))).*1 = ["A"; "B"]) as Hkeys
      by (vm_compute; reflexivity).
    rewrite Hkeys in Hperm. symmetry in Hperm.
    apply Permutation_length_2_inv in Hperm as [->| ->]; vm_compute; reflexivity.
Qed.

(** C7, as amended: for a test whose rounded adjusted time is not zero
    or equals its rounded total time, the line printed shows the rounded
    adjusted time alone when the two rounded times are equal, and
    otherwise the rounded total time and, after [parallel:], the integer
    quotient (truncated, not rounded) of the rounded total time by the
    rounded adjusted time. *)
Theorem report_factor_is_quotient (test : RunningTest) :
  inDuration (AdjustedExecutionTime test) →
  inDuration (TotalExecutionTime test) →
  Round (AdjustedExecutionTime test) Millisecond
    = Round (TotalExecutionTime test) Millisecond ∨
  Round (AdjustedExecutionTime test) Millisecond ≠ 0 →
  reportLine test =
    Ok (mkReportLine (Package test) (Name test)
          (Round (AdjustedExecutionTime test) Millisecond)
          (if decide (Round (AdjustedExecutionTime test) Millisecond
                      = Round (TotalExecutionTime test) Millisecond)
           then None
           else Some (Round (TotalExecutionTime test) Millisecond,
                      Z.quot (Round (TotalExecutionTime test) Millisecond)
                             (Round (AdjustedExecutionTime test) Millisecond)))).
Proof.
  intros Ha Ht Hcase. unfold reportLine.
  destruct (Round_Millisecond _ Ha) as [_ Hbig].
  destruct (Round_Millisecond _ Ht) as [Hrange _].
  set (a := Round (AdjustedExecutionTime test) Millisecond) in *.
  set (t := Round (TotalExecutionTime test) Millisecond) in *.
  destruct (decide (a = t)) as [Heq|Hne].
  - by rewrite decide_False by (intros Hn; by apply Hn).
  - rewrite decide_True by done.
    destruct Hcase as [?|Hnz]; [done|]. rewrite decide_False by done.
    rewrite wrap64_id; [done|].
    apply quot_inDuration; [done|]. unfold Millisecond in Hbig. lia.
Qed.

Lemma report_factor_is_quotient_witness :
  reportLine (mkRunningTest "A" "pkg" (ms 11) (ms 4) (ms 11) [] None false false) =
    Ok (mkReportLine "pkg" "A" (ms 4) (Some (ms 11, 2))).
Proof.
  apply (report_factor_is_quotient
           (mkRunningTest "A" "pkg" (ms 11) (ms 4) (ms 11) [] None false false)).
  - vm_compute. split; discriminate.
  - vm_compute. split; discriminate.
  - right. vm_compute. discriminate.
Defined.

Lemma scenarioRatio_run : run initState scenarioRatio (finalState scenarioRatio).
Proof. apply exec_run. vm_compute. reflexivity. Qed.

(** C7, as stated, fails: after [scenarioRatio] the test [A] has an
    adjusted time of 4ms and a total time of 11ms; the report prints 2
    after [parallel:], while the integer nearest to 11/4 is 3. *)
Lemma report_factor_not_rounded :
  ∃ s keys lines,
    run initState scenarioRatio s ∧ sortedKeys s keys ∧
    report keys s = Ok lines ∧
    adjustedOf s "A" = ms 4 ∧ totalOf s "A" = ms 11 ∧
    mkReportLine "pkg" "A" (ms 4) (Some (ms 11, 2)) ∈ lines ∧
    ¬ nearestInteger 2 (ms 11) (ms 4) ∧
    nearestInteger 3 (ms 11) (ms 4).
Proof.
  exists (finalState scenarioRatio), ["A"; "B"; "C"; "D"].
  eexists. split_and!.
  - exact scenarioRatio_run.
  - split.
    + assert ((map_to_list (allTests (finalState scenarioRatio))).*1
              = ["C"; "A"; "B"; "D"]) as -> by (vm_compute; reflexivity).
      apply (bool_decide_unpack _). vm_compute. exact I.
    + repeat constructor; vm_compute; discriminate.
  - vm_compute. reflexivity.
  - vm_compute. reflexivity.
  - vm_compute. reflexivity.
  - apply list_elem_of_here.
  - vm_compute. intros H. by apply H.
  - vm_compute. discriminate.
Qed.

(** ** The store *)

Lemma bind_Ok {A B} (r : Result A) (k : A → Result B) b :
  bind r k = Ok b → ∃ a, r = Ok a ∧ k a = Ok b.
Proof. destruct r as [a| |]; simpl; [by eauto|done|done]. Qed.

Lemma load_modify_eq a f s :
  (a < length (heap s))%nat → load (modify a f s) a = f (load s a).
Proof. intros. unfold load, modify. simpl. by apply list_lookup_total_alter_eq. Qed.

Lemma load_modify_ne a b f s : a ≠ b → load (modify a f s) b = load s b.
Proof. intros. unfold load, modify. simpl. by apply list_lookup_total_alter_ne. Qed.

Lemma load_modify a b f s :
  load (modify a f s) b =
    if decide (a = b ∧ (a < length (heap s))%nat) then f (load s a) else load s b.
Proof. unfold load, modify. simpl. apply list_lookup_total_alter. Qed.

Lemma length_modify a f s : length (heap (modify a f s)) = length (heap s).
Proof. unfold modify. simpl. apply length_alter. Qed.

Lemma modify_modify a f g s : modify a g (modify a f s) = modify a (g ∘ f) s.
Proof.
  unfold modify, withHeap. simpl. f_equal. apply list_alter_alter_eq.
Qed.

(** ** Effects *)

Lemma effect_Name ev a r r' : effect ev a r r' → Name r' = Name r.
Proof.
  destruct 1 as [r count r' _ Hadv| | | | | |]; try done.
  unfold advance in Hadv. case_decide; [done|]. by injection Hadv as <-.
Qed.

Lemma effect_Parent ev a r r' p :
  effect ev a r r' → Parent r' = Some p → Parent r = Some p ∨ (p < a)%nat.
Proof.
  destruct 1 as [r count r' _ Hadv| |r q Hq| | | |]; simpl; auto.
  - unfold advance in Hadv. case_decide; [done|]. injection Hadv as <-. auto.
  - intros [= <-]. auto.
Qed.

Lemma evolves_refl ev s : evolves ev s s.
Proof. split_and!; [done|intros; apply rtc_refl|intros; lia]. Qed.

Lemma evolves_trans ev s1 s2 s3 :
  evolves ev s1 s2 → evolves ev s2 s3 → evolves ev s1 s3.
Proof.
  intros (Hlen1 & Hold1 & Hnew1) (Hlen2 & Hold2 & Hnew2). split_and!.
  - lia.
  - intros a Ha. etrans; [by apply Hold1|]. apply Hold2. lia.
  - intros a Ha. destruct (decide (a < length (heap s2))%nat).
    + etrans; [apply Hnew1; lia|]. by apply Hold2.
    + apply Hnew2. lia.
Qed.

Lemma evolves_modify ev a f s :
  effect ev a (load s a) (f (load s a)) → evolves ev s (modify a f s).
Proof.
  intros Heff. split_and!.
  - by rewrite length_modify.
  - intros b Hb. rewrite load_modify. case_decide as Hc; [|apply rtc_refl].
    destruct Hc as [<- _]. by apply rtc_once.
  - intros b. rewrite length_modify. lia.
Qed.

(** ** The update functions *)

Lemma advance_Ok now count r r' :
  advance now count r = Ok r' →
  count ≠ 0%nat ∧
  r' = setTimes now
         (wrap64 (AdjustedExecutionTime r + Z.quot (Sub now (LastTimestamp r)) (Z.of_nat count)))
         (wrap64 (TotalExecutionTime r + Sub now (LastTimestamp r))) r.
Proof. unfold advance. case_decide; [done|]. by intros [= <-]. Qed.

Lemma updateExecutionTimesWithCount_Ok a ev count s s' :
  updateExecutionTimesWithCount a ev count s = Ok s' →
  s' = s ∨
  (AssumedStopped (load s a) = false ∧
   ∃ r', advance (Time ev) count (load s a) = Ok r' ∧ s' = modify a (λ _, r') s).
Proof.
  unfold updateExecutionTimesWithCount.
  destruct (AssumedStopped (load s a)) eqn:Hd; [intros [= <-]; by left|].
  intros (r' & Hadv & [= <-])%bind_Ok. right. eauto.
Qed.

Lemma updateExecutionTimes_Ok a ev s s' :
  updateExecutionTimes a ev s = Ok s' →
  s' = s ∨
  (AssumedStopped (load s a) = false ∧
   ∃ r', advance (Time ev) (activeCount s) (load s a) = Ok r' ∧
         s' = modify a (λ _, r') s).
Proof.
  unfold updateExecutionTimes.
  destruct (AssumedStopped (load s a)) eqn:Hd; [intros [= <-]; by left|].
  intros (r' & Hadv & [= <-])%bind_Ok. right. eauto.
Qed.

Lemma retimed_refl s : retimed s s.
Proof.
  split_and!; try done. intros b.
  exists (LastTimestamp (load s b)), (AdjustedExecutionTime (load s b)),
    (TotalExecutionTime (load s b)). by destruct (load s b).
Qed.

Lemma retimed_trans s1 s2 s3 : retimed s1 s2 → retimed s2 s3 → retimed s1 s3.
Proof.
  intros (? & ? & ? & ? & H12) (? & ? & ? & ? & H23).
  split_and!; try congruence. intros b.
  destruct (H12 b) as (t & x & y & E12), (H23 b) as (t' & x' & y' & E23).
  exists t', x', y'. by rewrite E23, E12.
Qed.

Lemma retimed_advance a now count r' s :
  advance now count (load s a) = Ok r' → retimed s (modify a (λ _, r') s).
Proof.
  intros [_ ->]%advance_Ok. split_and!; try done.
  - apply length_modify.
  - intros b. rewrite load_modify. case_decide as Hc.
    + destruct Hc as [<- _]. eauto.
    + destruct (retimed_refl s) as (_ & _ & _ & _ & H). apply H.
Qed.

Lemma retimed_flags s s' b :
  retimed s s' →
  Name (load s' b) = Name (load s b) ∧
  Parent (load s' b) = Parent (load s b) ∧
  Children (load s' b) = Children (load s b) ∧
  AssumedStopped (load s' b) = AssumedStopped (load s b) ∧
  Parallel (load s' b) = Parallel (load s b).
Proof. intros (_ & _ & _ & _ & H). destruct (H b) as (t & x & y & ->). done. Qed.

Lemma wf_modify ev a f s :
  wf s → effect ev a (load s a) (f (load s a)) → wf (modify a f s).
Proof.
  intros [Hall Hrun Hpar] Heff. split.
  - intros k b Hk. rewrite length_modify, load_modify. simpl in Hk.
    destruct (Hall k b Hk) as [Hb Hname]. split; [done|].
    case_decide as Hc; [|done]. destruct Hc as [<- _].
    by rewrite (effect_Name _ _ _ _ Heff).
  - intros k b Hk. rewrite length_modify, load_modify. simpl in Hk.
    destruct (Hrun k b Hk) as [Hb Hname]. split; [done|].
    case_decide as Hc; [|done]. destruct Hc as [<- _].
    by rewrite (effect_Name _ _ _ _ Heff).
  - intros b p. rewrite length_modify, load_modify. intros Hb.
    case_decide as Hc; [|by apply Hpar]. destruct Hc as [<- _].
    intros Hp. destruct (effect_Parent _ _ _ _ _ Heff Hp); [by apply Hpar|done].
Qed.

Lemma good_modify ev s0 a f s :
  good ev s0 s → effect ev a (load s a) (f (load s a)) → good ev s0 (modify a f s).
Proof.
  intros [Hwf Hev] Heff. split; [by eapply wf_modify|].
  eapply evolves_trans; [exact Hev|by apply evolves_modify].
Qed.

Lemma good_updateExecutionTimesWithCount ev s0 a count s s' :
  good ev s0 s → updateExecutionTimesWithCount a ev count s = Ok s' →
  good ev s0 s' ∧ retimed s s'.
Proof.
  intros Hgood [->|(Hd & r' & Hadv & ->)]%updateExecutionTimesWithCount_Ok.
  - split; [done|apply retimed_refl].
  - split; [|by eapply retimed_advance].
    apply good_modify; [done|]. by eapply eff_advance.
Qed.

Lemma good_updateExecutionTimes ev s0 a s s' :
  good ev s0 s → updateExecutionTimes a ev s = Ok s' →
  good ev s0 s' ∧ retimed s s'.
Proof.
  intros Hgood [->|(Hd & r' & Hadv & ->)]%updateExecutionTimes_Ok.
  - split; [done|apply retimed_refl].
  - split; [|by eapply retimed_advance].
    apply good_modify; [done|]. by eapply eff_advance.
Qed.

Lemma foldResult_invariant {A S} (P : S → Prop) (f : A → S → Result S) l s s' :
  (∀ a s s', P s → f a s = Ok s' → P s') →
  P s → foldResult f l s = Ok s' → P s'.
Proof.
  intros Hf. revert s. induction l as [|a l IH]; intros s HP; simpl.
  - by intros [= <-].
  - intros (s1 & Hs1 & Hrest)%bind_Ok. eauto.
Qed.

Lemma good_updateRunningTests ev s0 s s' :
  good ev s0 s → updateRunningTests ev s = Ok s' →
  good ev s0 s' ∧ retimed s s'.
Proof.
  intros Hgood Hupd. unfold updateRunningTests in Hupd.
  apply (foldResult_invariant (λ s1, good ev s0 s1 ∧ retimed s s1)) in Hupd;
    [done| |split; [done|apply retimed_refl]].
  intros a s1 s2 [Hg Hr] Hstep.
  destruct (good_updateExecutionTimesWithCount _ _ _ _ _ _ Hg Hstep).
  split; [done|by eapply retimed_trans].
Qed.

Lemma good_updateAll ev s0 l s s' :
  good ev s0 s →
  foldResult (λ a s, updateExecutionTimes a ev s) l s = Ok s' →
  good ev s0 s' ∧ retimed s s'.
Proof.
  intros Hgood Hupd.
  apply (foldResult_invariant (λ s1, good ev s0 s1 ∧ retimed s s1)) in Hupd;
    [done| |split; [done|apply retimed_refl]].
  intros a s1 s2 [Hg Hr] Hstep.
  destruct (good_updateExecutionTimes _ _ _ _ _ Hg Hstep).
  split; [done|by eapply retimed_trans].
Qed.

Lemma good_insertRunning ev s0 k a s :
  good ev s0 s → (a < length (heap s))%nat → Name (load s a) = k →
  good ev s0 (insertRunning k a s).
Proof.
  intros [[Hall Hrun Hpar] Hev] Ha Hname. split; [split|exact Hev]; try done.
  intros k' b. unfold insertRunning. simpl. rewrite lookup_insert.
  case_decide; [|by apply Hrun]. intros [= <-]. by subst.
Qed.

Lemma good_deleteRunning ev s0 k s : good ev s0 s → good ev s0 (deleteRunning k s).
Proof.
  intros [[Hall Hrun Hpar] Hev]. split; [split|exact Hev]; try done.
  intros k' b. unfold deleteRunning. simpl. rewrite lookup_delete.
  case_decide; [done|by apply Hrun].
Qed.

Lemma load_alloc_old h al ru out r a :
  (a < length h)%nat → load (mkState (h ++ [r]) al ru out) a = load (mkState h al ru out) a.
Proof. intros. unfold load. simpl. by apply lookup_total_app_l. Qed.

Lemma load_alloc_new h al ru out r : load (mkState (h ++ [r]) al ru out) (length h) = r.
Proof. unfold load. simpl. apply list_lookup_total_middle. done. Qed.

Lemma good_alloc ev s :
  wf s →
  good ev s (mkState (heap s ++ [newTest ev]) (<[Test ev := length (heap s)]> (allTests s))
               (runningTests s) (stdout s)).
Proof.
  destruct s as [h al ru out]. intros [Hall Hrun Hpar]. simpl in *.
  split; [split|split_and!]; simpl.
  - intros k a. rewrite lookup_insert, length_app. simpl. case_decide.
    + intros [= <-]. subst. rewrite load_alloc_new. split; [lia|done].
    + intros Hk. destruct (Hall k a Hk). rewrite load_alloc_old by done.
      split; [lia|done].
  - intros k a Hk. rewrite length_app. simpl.
    destruct (Hrun k a Hk). rewrite load_alloc_old by done. split; [lia|done].
  - intros a p. rewrite length_app. simpl. intros Ha.
    destruct (decide (a < length h)%nat).
    + rewrite load_alloc_old by done. by apply Hpar.
    + assert (a = length h) as -> by lia. by rewrite load_alloc_new.
  - rewrite length_app. lia.
  - intros a Ha. rewrite load_alloc_old by done. apply rtc_refl.
  - intros a. rewrite length_app. simpl. intros Ha.
    assert (a = length h) as -> by lia. rewrite load_alloc_new. apply rtc_refl.
Qed.

Lemma good_stopSibling ev s0 (new : addr) parent rt fuel : ∀ (ps : addr) s b s',
  good ev s0 s → allTests s !! Test ev = Some new → (ps < new)%nat →
  stopSibling fuel ev rt ps parent s = Ok (b, s') →
  good ev s0 s' ∧ allTests s' = allTests s ∧ (b = false → s' = s).
Proof.
  induction fuel as [|fuel IH]; intros ps s b s' Hgood Hnew Hps; simpl; [done|].
  destruct (Hgood) as [Hwf _].
  destruct (wf_all _ Hwf _ _ Hnew) as [Hnewlt Hnewname].
  destruct (Parent (load s ps)) as [p|] eqn:Hp; [|by intros [= <- <-]].
  assert (p < ps)%nat as Hpps by (apply (wf_parent _ Hwf ps p); [lia|done]).
  destruct (bool_decide (Name (load s p) = parent)
            && negb (Parallel (load s rt)) && negb (AssumedStopped (load s rt))) eqn:Hc.
  - apply andb_true_iff in Hc as [Hc Hnd]. apply andb_true_iff in Hc as [_ Hnp].
    apply negb_true_iff in Hnd, Hnp.
    intros (s1 & Hs1 & Hrest)%bind_Ok.
    destruct (good_updateExecutionTimes _ _ _ _ _ Hgood Hs1) as [Hg1 Hr1].
    destruct (retimed_flags _ _ rt Hr1) as (_ & _ & _ & Hd1 & Hp1).
    destruct Hr1 as (Hall1 & _ & _ & Hlen1 & _).
    apply bind_Ok in Hrest as (new' & Hlook & Hrest).
    unfold lookupAll in Hlook. simpl in Hlook. rewrite Hall1, Hnew in Hlook.
    injection Hlook as <-. injection Hrest as <- <-.
    assert (good ev s0 (modify rt (setAssumedStopped true) s1)) as Hg2.
    { apply good_modify; [done|]. apply eff_dormant; congruence. }
    assert (good ev s0 (modify new (setParent (Some p))
                          (modify rt (setAssumedStopped true) s1))) as Hg3.
    { apply good_modify; [done|]. apply eff_parent. lia. }
    assert (good ev s0 (modify p (λ r, setChildren (Children r ++ [new]) r)
              (modify new (setParent (Some p))
                 (modify rt (setAssumedStopped true) s1)))) as Hg4.
    { apply good_modify; [done|]. apply eff_children. }
    split_and!; [|done|done].
    apply good_insertRunning; [done| |].
    + rewrite !length_modify. lia.
    + destruct Hg4 as [Hwf4 _]. apply (wf_all _ Hwf4). simpl. by rewrite Hall1.
  - destruct (Parent (load s p)); [|by intros [= <- <-]].
    intros Hrec. apply (IH p s b s' Hgood Hnew); [lia|done].
Qed.

Lemma good_stopSiblings ev s0 (new : addr) parent order : ∀ s r,
  good ev s0 s → allTests s !! Test ev = Some new →
  Forall (λ a, (a < new)%nat) order →
  stopSiblings order ev parent s = Ok r →
  good ev s0 r.2 ∧ allTests r.2 = allTests s.
Proof.
  induction order as [|rt order IH]; intros s r Hgood Hnew Hord Hrun;
    cbn [stopSiblings] in Hrun.
  - by injection Hrun as <-.
  - apply Forall_cons in Hord as [Hrt Hord].
    apply bind_Ok in Hrun as ([b s1] & Hstop & Hrest).
    destruct (good_stopSibling _ _ _ _ _ _ _ _ _ _ Hgood Hnew Hrt Hstop)
      as (Hg1 & Hall1 & Hsame).
    cbn [fst snd] in Hrest. destruct b.
    + by injection Hrest as <-.
    + rewrite (Hsame eq_refl) in *. by apply IH in Hrest.
Qed.

(** ** The handlers *)

Lemma good_printLine ev s0 line s : good ev s0 s → good ev s0 (printLine line s).
Proof. intros [[Hall Hrun Hpar] Hev]. by split; [split|exact Hev]. Qed.

Lemma good_handleRun order ev s s' :
  wf s → Forall (λ a, (a < length (heap s))%nat) order →
  handleRun order ev s = Ok s' → good ev s s'.
Proof.
  intros Hwf Hord. unfold handleRun.
  pose proof (good_alloc ev s Hwf) as Hg0.
  set (new := length (heap s)) in *.
  set (s1 := mkState (heap s ++ [newTest ev]) (<[Test ev:=new]> (allTests s))
               (runningTests s) (stdout s)) in *.
  assert (allTests s1 !! Test ev = Some new) as Hnew by apply lookup_insert_eq.
  assert (∀ s2, good ev s s2 → allTests s2 !! Test ev = Some new →
            (do s3 <- updateRunningTests ev s2; Ok (insertRunning (Test ev) new s3)) = Ok s' →
            good ev s s') as Hfinish.
  { intros s2 Hg2 Hnew2 (s3 & Hupd & [= <-])%bind_Ok.
    destruct (good_updateRunningTests _ _ _ _ Hg2 Hupd) as [Hg3 (Hall3 & _)].
    destruct Hg3 as [Hwf3 ?].
    destruct (wf_all _ Hwf3 (Test ev) new) as [? ?]; [by rewrite Hall3|].
    by apply good_insertRunning. }
  destruct (isSubTest (Test ev)) as [parent [|]]; [|by apply Hfinish].
  intros (parent' & _ & Hrest)%bind_Ok.
  destruct (runningTests s1 !! parent') as [runningParent|] eqn:Hrp.
  - destruct (wf_running _ Hwf _ _ Hrp) as [Hrplt _].
    assert (good ev s (modify new (setParent (Some runningParent)) s1)) as Hg2.
    { apply good_modify; [done|]. by apply eff_parent. }
    assert (good ev s (modify runningParent (λ r, setChildren (Children r ++ [new]) r)
                         (modify new (setParent (Some runningParent)) s1))) as Hg3.
    { apply good_modify; [done|]. apply eff_children. }
    case_decide; [|done].
    apply bind_Ok in Hrest as (s4 & Hupd & [= <-]).
    destruct (good_updateExecutionTimes _ _ _ _ _ Hg3 Hupd) as [Hg4 (Hall4 & _ & _ & Hlen4 & _)].
    apply good_insertRunning; [by apply good_deleteRunning| |].
    + simpl. rewrite Hlen4, !length_modify. subst s1 new. simpl.
      rewrite length_app. simpl. lia.
    + destruct Hg4 as [Hwf4 _]. apply (wf_all _ Hwf4). by rewrite Hall4.
  - apply bind_Ok in Hrest as ([b s2] & Hstop & Hrest).
    destruct (good_stopSiblings _ _ _ _ _ _ _ Hg0 Hnew Hord Hstop) as [Hg2 Hall2].
    cbn [fst snd] in *. destruct b; [by injection Hrest as <-|].
    apply (Hfinish s2); [done|by rewrite Hall2|done].
Qed.

Lemma good_handlePause ev s s' :
  wf s → Action ev = "pause" → handlePause ev s = Ok s' → good ev s s'.
Proof.
  intros Hwf Hact. unfold handlePause.
  assert (good ev s s) as Hg0 by (split; [done|apply evolves_refl]).
  destruct (runningTests s !! Test ev) as [pausedTest|] eqn:Hpt.
  - destruct (wf_running _ Hwf _ _ Hpt) as [Hlt Hname].
    rewrite modify_modify.
    intros (s1 & Hupd & [= <-])%bind_Ok.
    apply good_deleteRunning.
    eapply good_updateRunningTests; [|exact Hupd].
    apply good_modify; [done|]. by apply eff_pause.
  - intros [= <-]. by apply good_printLine.
Qed.

Lemma good_handleCont ev s s' :
  wf s → Action ev = "cont" → handleCont ev s = Ok s' → good ev s s'.
Proof.
  intros Hwf Hact. unfold handleCont.
  assert (good ev s s) as Hg0 by (split; [done|apply evolves_refl]).
  destruct (allTests s !! Test ev) as [test|] eqn:Htest.
  - intros (s1 & Hupd & [= <-])%bind_Ok.
    destruct (good_updateAll _ _ _ _ _ Hg0 Hupd) as [Hg1 Hr1].
    destruct (retimed_flags _ _ test Hr1) as (Hname1 & _).
    destruct Hr1 as (Hall1 & _ & _ & Hlen1 & _).
    destruct (wf_all _ Hwf _ _ Htest) as [Hlt Hname].
    assert (good ev s (modify test (setLastTimestamp (Time ev)) s1)) as Hg2.
    { apply good_modify; [done|]. apply eff_clock. }
    assert (good ev s (modify test (setAssumedStopped false)
                         (modify test (setLastTimestamp (Time ev)) s1))) as Hg3.
    { apply good_modify; [done|]. apply eff_cont; [done|].
      rewrite load_modify_eq by lia. simpl. congruence. }
    apply good_insertRunning; [done| |].
    + rewrite !length_modify. lia.
    + destruct Hg3 as [Hwf3 _]. apply (wf_all _ Hwf3). simpl. by rewrite Hall1.
  - intros [= <-]. by apply good_printLine.
Qed.

Lemma good_handleStop ev s s' :
  wf s → handleStop ev s = Ok s' → good ev s s'.
Proof.
  intros Hwf. unfold handleStop.
  assert (good ev s s) as Hg0 by (split; [done|apply evolves_refl]).
  destruct (runningTests s !! Test ev) as [test|] eqn:Htest;
    [|intros [= <-]; by apply good_printLine].
  destruct (wf_running _ Hwf _ _ Htest) as [Hlt Hname].
  destruct (Parent (load s test)) as [parent|] eqn:Hparent.
  - pose proof (wf_parent _ Hwf _ _ Hlt Hparent) as Hplt.
    intros (s1 & Hs1 & [= <-])%bind_Ok. apply good_deleteRunning.
    destruct (length (Children (load s parent))) as [|[|n]]; [done| |].
    + apply bind_Ok in Hs1 as (s2 & Hupd & [= <-]).
      destruct (good_updateExecutionTimes _ _ _ _ _ Hg0 Hupd) as [Hg2 (_ & _ & _ & Hlen2 & _)].
      assert (good ev s (modify parent (setChildren []) s2)) as Hg3.
      { apply good_modify; [done|]. apply eff_children. }
      apply good_modify; [|apply eff_clock].
      apply good_insertRunning; [done| |done].
      rewrite length_modify. lia.
    + apply bind_Ok in Hs1 as (s2 & Hupd & [= <-]).
      apply good_modify; [|apply eff_children].
      destruct (AssumedStopped (load s test)).
      * by injection Hupd as <-.
      * by eapply good_updateRunningTests.
  - intros (s1 & Hupd & [= <-])%bind_Ok. apply good_deleteRunning.
    by eapply good_updateRunningTests.
Qed.

Lemma good_processEvent order ev s s' :
  wf s → Forall (λ a, (a < length (heap s))%nat) order →
  processEvent order ev s = Ok s' → good ev s s'.
Proof.
  intros Hwf Hord. unfold processEvent.
  assert (good ev s s) as Hg0 by (split; [done|apply evolves_refl]).
  repeat case_decide.
  - by intros [= <-].
  - by apply good_handleRun.
  - by apply good_handlePause.
  - by apply good_handleCont.
  - by apply good_handleStop.
  - by intros [= <-].
  - done.
Qed.

Lemma running_valid s a : wf s → a ∈ running s → (a < length (heap s))%nat.
Proof.
  intros Hwf Ha. unfold running in Ha.
  apply list_elem_of_fmap in Ha as [[k b] [-> Hin]].
  apply elem_of_map_to_list in Hin. by destruct (wf_running _ Hwf _ _ Hin).
Qed.

Lemma order_valid s order :
  wf s → order ≡ₚ running s → Forall (λ a, (a < length (heap s))%nat) order.
Proof.
  intros Hwf Hp. apply Forall_forall. intros a Ha. rewrite Hp in Ha.
  by apply running_valid.
Qed.

Lemma wf_initState : wf initState.
Proof. split; simpl; intros *; try (by rewrite lookup_empty); lia. Qed.

Lemma run_wf s events s' : wf s → run s events s' → wf s'.
Proof.
  intros Hwf Hrun. induction Hrun as [|s order ev s1 events s2 Hp Hstep _ IH]; [done|].
  apply IH. eapply good_processEvent; [done|by apply order_valid|done].
Qed.

(** ** Uniform advance *)

Lemma advance_advanced now count r :
  count ≠ 0%nat → advance now count r = Ok (advanced now count r).
Proof. intros. unfold advance. by rewrite decide_False. Qed.

Lemma running_NoDup s : wf s → NoDup (running s).
Proof.
  intros Hwf. unfold running. apply NoDup_fmap_2_strong; [|apply NoDup_map_to_list].
  intros [k1 a1] [k2 a2] H1%elem_of_map_to_list H2%elem_of_map_to_list Heq.
  simpl in Heq. subst a2.
  destruct (wf_running _ Hwf _ _ H1) as [_ <-].
  destruct (wf_running _ Hwf _ _ H2) as [_ <-]. done.
Qed.

Lemma foldUpdate_spec ev count l : ∀ s,
  NoDup l → Forall (λ a, (a < length (heap s))%nat) l →
  (∀ a, a ∈ l → AssumedStopped (load s a) = false → count ≠ 0%nat) →
  ∃ s', foldResult (λ a s, updateExecutionTimesWithCount a ev count s) l s = Ok s' ∧
        retimed s s' ∧
        ∀ b, load s' b =
               if decide (b ∈ l ∧ AssumedStopped (load s b) = false)
               then advanced (Time ev) count (load s b) else load s b.
Proof.
  induction l as [|a l IH]; intros s Hnd Hval Hcount; cbn [foldResult].
  - exists s. split_and!; [done|apply retimed_refl|].
    intros b. rewrite decide_False; [done|]. intros [Hb _]. by apply elem_of_nil in Hb.
  - apply NoDup_cons in Hnd as [Ha Hnd]. apply Forall_cons in Hval as [Halt Hval].
    assert (∃ s1, updateExecutionTimesWithCount a ev count s = Ok s1 ∧ retimed s s1 ∧
              (∀ b, b ≠ a → load s1 b = load s b) ∧
              load s1 a = if AssumedStopped (load s a)
                          then load s a else advanced (Time ev) count (load s a))
      as (s1 & Hs1 & Hr1 & Hother & Hself).
    { unfold updateExecutionTimesWithCount.
      destruct (AssumedStopped (load s a)) eqn:Hd.
      - exists s. split_and!; [done|apply retimed_refl|done|done].
      - assert (count ≠ 0%nat) as Hc by (apply (Hcount a); [left|done]).
        rewrite (advance_advanced _ _ _ Hc). simpl. eexists. split_and!; [done| | |].
        + eapply retimed_advance. by apply advance_advanced.
        + intros b Hb. by rewrite load_modify_ne.
        + by rewrite load_modify_eq. }
    rewrite Hs1. cbn [bind].
    destruct (IH s1) as (s' & Hs' & Hr' & Hload); [done| |..].
    { destruct Hr1 as (_ & _ & _ & Hlen & _). by rewrite Hlen. }
    { intros b Hb Hd. apply (Hcount b); [by right|].
      destruct (retimed_flags _ _ b Hr1) as (_ & _ & _ & <- & _). done. }
    exists s'. split_and!; [done|by eapply retimed_trans|].
    intros b. rewrite Hload.
    destruct (retimed_flags _ _ b Hr1) as (_ & _ & _ & Hflag & _). rewrite Hflag.
    destruct (decide (b = a)) as [->|Hne].
    + rewrite decide_False by (by intros [? _]). rewrite Hself.
      destruct (AssumedStopped (load s a)) eqn:Hd.
      * rewrite decide_False; [done|]. by intros [_ ?].
      * rewrite decide_True; [done|]. split; [left|done].
    + rewrite (Hother b Hne).
      destruct (decide (b ∈ l ∧ AssumedStopped (load s b) = false)) as [[Hb Hd]|Hn].
      * rewrite decide_True; [done|]. split; [by right|done].
      * rewrite decide_False; [done|]. intros [Hb Hd]. apply Hn. split; [|done].
        apply elem_of_cons in Hb as [?|?]; done.
Qed.

Lemma elem_of_active s a :
  a ∈ active s ↔ a ∈ running s ∧ AssumedStopped (load s a) = false.
Proof. unfold active. by rewrite list_elem_of_filter, (comm and). Qed.

(** A uniform advance always returns: it advances every running test
    that is not assumed stopped and nothing else. *)
Lemma updateRunningTests_spec ev s :
  wf s →
  ∃ s', updateRunningTests ev s = Ok s' ∧ retimed s s' ∧
        ∀ b, load s' b =
               if decide (b ∈ active s)
               then advanced (Time ev) (activeCount s) (load s b) else load s b.
Proof.
  intros Hwf. unfold updateRunningTests.
  destruct (foldUpdate_spec ev (activeCount s) (running s) s) as (s' & Hs' & Hr & Hload).
  - by apply running_NoDup.
  - apply Forall_forall. intros a. by apply running_valid.
  - intros a Ha Hd. unfold activeCount.
    assert (a ∈ active s) as Hin by (by apply elem_of_active).
    unfold active in Hin. destruct (filter _ _); [by apply elem_of_nil in Hin|done].
  - exists s'. split_and!; [done|done|]. intros b. rewrite Hload.
    destruct (decide (b ∈ active s)) as [Hb|Hb].
    + rewrite decide_True; [done|]. by apply elem_of_active.
    + rewrite decide_False; [done|]. intros ?. by apply Hb, elem_of_active.
Qed.

Lemma wrap64_wrap64_l x y : wrap64 (wrap64 x + y) = wrap64 (x + y).
Proof.
  unfold wrap64. f_equal.
  replace ((x + 2 ^ 63) mod 2 ^ 64 - 2 ^ 63 + y + 2 ^ 63)
    with ((x + 2 ^ 63) mod 2 ^ 64 + y) by lia.
  rewrite Zplus_mod_idemp_l. f_equal. lia.
Qed.

Lemma wrap64_increment x q : inDuration q → wrap64 (wrap64 (x + q) - x) = q.
Proof.
  intros Hq. replace (wrap64 (x + q) - x) with (wrap64 (x + q) + - x) by lia.
  rewrite wrap64_wrap64_l. replace (x + q + - x) with q by lia. by apply wrap64_id.
Qed.

Lemma Sub_inDuration t u : inDuration (Sub t u).
Proof.
  unfold Sub, inDuration, minDuration, maxDuration.
  destruct (Z.ltb_spec (t - u) (- 2 ^ 63)); [lia|].
  destruct (Z.ltb_spec (2 ^ 63 - 1) (t - u)); lia.
Qed.

Lemma quot_count_inDuration d (count : nat) :
  inDuration d → count ≠ 0%nat → inDuration (Z.quot d (Z.of_nat count)).
Proof.
  unfold inDuration, minDuration, maxDuration. intros Hd Hc.
  pose proof (Z.quot_rem' d (Z.of_nat count)) as Hq.
  pose proof (Z.rem_bound_abs d (Z.of_nat count) ltac:(lia)) as Hr.
  pose proof (Z.rem_sign_mul d (Z.of_nat count) ltac:(lia)) as Hs.
  nia.
Qed.

Lemma sumZ_const (l : list addr) (f : addr → Z) q :
  (∀ a, a ∈ l → f a = q) → sumZ (f <$> l) = Z.of_nat (length l) * q.
Proof.
  intros Hf. unfold sumZ. induction l as [|a l IH]; [done|].
  rewrite fmap_cons, length_cons. cbn [foldr].
  rewrite (Hf a) by left. rewrite IH by (intros; apply Hf; by right). lia.
Qed.

Lemma Sub_exact t u : inDuration (t - u) → Sub t u = t - u.
Proof.
  unfold Sub, inDuration, minDuration, maxDuration. intros H.
  destruct (Z.ltb_spec (t - u) (- 2 ^ 63)); [lia|].
  destruct (Z.ltb_spec (2 ^ 63 - 1) (t - u)); lia.
Qed.

(** A uniform advance over running tests that share the timestamp [t0]
    returns and gives each of them the same share of the time
    [Sub (Time ev) t0] that [time.Time.Sub] measures. *)
Lemma uniform_advance_sum ev s t0 :
  wf s → active s ≠ [] →
  (∀ a, a ∈ active s → LastTimestamp (load s a) = t0) →
  ∃ s', updateRunningTests ev s = Ok s' ∧
        sumZ (increment s s' <$> active s)
          = Z.of_nat (length (active s))
            * Z.quot (Sub (Time ev) t0) (Z.of_nat (length (active s))).
Proof.
  intros Hwf Hne Ht0.
  destruct (updateRunningTests_spec ev s Hwf) as (s' & Hs' & _ & Hload).
  exists s'. split; [done|].
  assert (length (active s) ≠ 0%nat) as Hc by (by destruct (active s)).
  apply sumZ_const. intros a Ha. unfold increment.
  rewrite Hload, decide_True by done. unfold advanced. simpl.
  rewrite (Ht0 a Ha). apply wrap64_increment.
  apply quot_count_inDuration; [apply Sub_inDuration|done].
Qed.

(** C1, as amended: a uniform advance over running tests that are not
    assumed stopped and share the timestamp [t0], over an interval
    [Time ev - t0] that a [time.Duration] can hold, returns, and the
    increments of adjusted time it gives them add up to the length of the
    interval less the remainder of its division by their number: at most
    count - 1 nanoseconds are lost. *)
Theorem conservation ev s t0 :
  wf s → active s ≠ [] →
  (∀ a, a ∈ active s → LastTimestamp (load s a) = t0) →
  inDuration (Time ev - t0) →
  ∃ s', updateRunningTests ev s = Ok s' ∧
        sumZ (increment s s' <$> active s)
          = (Time ev - t0) - Z.rem (Time ev - t0) (Z.of_nat (length (active s))) ∧
        Z.abs ((Time ev - t0) - sumZ (increment s s' <$> active s))
          ≤ Z.of_nat (length (active s)) - 1.
Proof.
  intros Hwf Hne Ht0 Hd.
  destruct (uniform_advance_sum ev s t0 Hwf Hne Ht0) as (s' & Hs' & Hsum).
  exists s'. split; [done|]. rewrite Hsum.
  assert (length (active s) ≠ 0%nat) as Hc by (by destruct (active s)).
  rewrite (Sub_exact _ _ Hd).
  set (d := Time ev - t0). set (n := length (active s)) in *.
  pose proof (Z.quot_rem' d (Z.of_nat n)) as Hq.
  pose proof (Z.rem_bound_abs d (Z.of_nat n) ltac:(lia)) as Hr.
  split; lia.
Qed.

Lemma conservation_witness :
  ∃ s', updateRunningTests (event "pass" "A" 10) (finalState scenarioThree) = Ok s' ∧
        sumZ (increment (finalState scenarioThree) s' <$> active (finalState scenarioThree))
          = 10 - 1 ∧
        Z.abs (10 - sumZ (increment (finalState scenarioThree) s'
                            <$> active (finalState scenarioThree)))
          ≤ 3 - 1.
Proof.
  apply (conservation (event "pass" "A" 10) (finalState scenarioThree) 0).
  - apply (run_wf initState scenarioThree); [apply wf_initState|].
    apply exec_run. vm_compute. reflexivity.
  - vm_compute. discriminate.
  - intros a Ha.
    assert (active (finalState scenarioThree) = [2; 0; 1]%nat) as Hact
      by (vm_compute; reflexivity).
    rewrite Hact in Ha.
    repeat (apply elem_of_cons in Ha as [->|Ha]; [vm_compute; reflexivity|]).
    by apply elem_of_nil in Ha.
  - vm_compute. split; discriminate.
Defined.

(** C1, as stated, fails: [A] runs alone since 0 and the next event
    comes 2^63 + 10 ns later.  [time.Time.Sub] saturates at the largest
    duration, so the one increment is 2^63 - 1 ns: 11 ns of the interval
    are lost, with a count of 1. *)
Lemma conservation_lost_to_saturation :
  ∃ s ev t0 s',
    run initState scenarioAlone s ∧
    active s = [0%nat] ∧
    (∀ a, a ∈ active s → LastTimestamp (load s a) = t0) ∧
    Time ev - t0 = 2 ^ 63 + 10 ∧
    updateRunningTests ev s = Ok s' ∧
    sumZ (increment s s' <$> active s) = 2 ^ 63 - 1 ∧
    Z.of_nat (length (active s)) - 1
      < Z.abs ((Time ev - t0) - sumZ (increment s s' <$> active s)).
Proof.
  exists (finalState scenarioAlone), (event "pass" "A" (2 ^ 63 + 10)), 0.
  eexists. split_and!.
  - apply exec_run. vm_compute. reflexivity.
  - vm_compute. reflexivity.
  - intros a Ha.
    assert (active (finalState scenarioAlone) = [0%nat]) as Hact
      by (vm_compute; reflexivity).
    rewrite Hact in Ha. apply list_elem_of_singleton in Ha as ->.
    vm_compute. reflexivity.
  - vm_compute. reflexivity.
  - vm_compute. reflexivity.
  - vm_compute. reflexivity.
  - vm_compute. reflexivity.
Qed.

(** ** Invariants of a run *)

Lemma effect_exclusive ev a r r' :
  effect ev a r r' →
  (Parallel r = true → AssumedStopped r = false) →
  Parallel r' = true → AssumedStopped r' = false.
Proof.
  destruct 1 as [r count r' Hd Hadv| | | |r Hp Hd| |]; simpl; try done.
  - apply advance_Ok in Hadv as [_ ->]. done.
  - congruence.
Qed.

Lemma effects_exclusive ev a r r' :
  rtc (effect ev a) r r' →
  (Parallel r = true → AssumedStopped r = false) →
  Parallel r' = true → AssumedStopped r' = false.
Proof. induction 1; [done|]. eauto using effect_exclusive. Qed.

Lemma evolves_exclusive ev s s' : evolves ev s s' → exclusive s → exclusive s'.
Proof.
  intros (Hlen & Hold & Hnew) Hex a Ha.
  destruct (decide (a < length (heap s))%nat).
  - eapply effects_exclusive; [by apply Hold|by apply Hex].
  - eapply effects_exclusive; [apply Hnew; lia|done].
Qed.

Lemma run_exclusive s events s' : wf s → exclusive s → run s events s' → exclusive s'.
Proof.
  intros Hwf Hex Hrun. induction Hrun as [|s order ev s1 events s2 Hp Hstep _ IH]; [done|].
  destruct (good_processEvent order ev s s1) as [Hwf1 Hev1];
    [done|by apply order_valid|done|].
  apply IH; [done|]. by eapply evolves_exclusive.
Qed.

Lemma quot_share d (count : nat) :
  0 ≤ d → count ≠ 0%nat → 0 ≤ Z.quot d (Z.of_nat count) ≤ d.
Proof.
  intros Hd Hc.
  pose proof (Z.quot_rem' d (Z.of_nat count)) as Hq.
  pose proof (Z.rem_bound_pos d (Z.of_nat count) Hd ltac:(lia)) as Hr.
  nia.
Qed.

Lemma timely_later lo now now' r : now ≤ now' → timely lo now r → timely lo now' r.
Proof. unfold timely. lia. Qed.

Lemma effect_timely ev a lo r r' :
  Time ev - lo ≤ maxDuration →
  effect ev a r r' → timely lo (Time ev) r → timely lo (Time ev) r'.
Proof.
  intros Hspan Heff (Hlast & Hadj & Htot).
  destruct Heff as [r count r' Hd Hadv| | | | | |]; try done.
  - apply advance_Ok in Hadv as [Hc ->]. unfold timely. simpl.
    unfold maxDuration in Hspan.
    rewrite Sub_exact by (unfold inDuration, minDuration, maxDuration; lia).
    pose proof (quot_share (Time ev - LastTimestamp r) count ltac:(lia) Hc).
    rewrite !wrap64_id by (unfold inDuration, minDuration, maxDuration; lia).
    lia.
  - unfold timely. simpl. lia.
Qed.

Lemma effects_timely ev a lo r r' :
  Time ev - lo ≤ maxDuration →
  rtc (effect ev a) r r' → timely lo (Time ev) r → timely lo (Time ev) r'.
Proof. intros Hspan. induction 1; [done|]. eauto using effect_timely. Qed.

Lemma evolves_timely ev lo now s s' :
  lo ≤ now ≤ Time ev → Time ev - lo ≤ maxDuration →
  evolves ev s s' →
  (∀ a, (a < length (heap s))%nat → timely lo now (load s a)) →
  ∀ a, (a < length (heap s'))%nat → timely lo (Time ev) (load s' a).
Proof.
  intros Hnow Hspan (Hlen & Hold & Hnew) Hinv a Ha.
  destruct (decide (a < length (heap s))%nat).
  - eapply effects_timely; [done|by apply Hold|].
    eapply timely_later; [|by apply Hinv]. lia.
  - eapply effects_timely; [done|apply Hnew; lia|].
    unfold timely, newTest. simpl. lia.
Qed.

Lemma run_timely lo s events s' : ∀ now,
  wf s → lo ≤ now → nondecreasing now events →
  Forall (λ ev, Time ev - lo ≤ maxDuration) events →
  (∀ a, (a < length (heap s))%nat → timely lo now (load s a)) →
  run s events s' →
  ∃ now', ∀ a, (a < length (heap s'))%nat → timely lo now' (load s' a).
Proof.
  intros now Hwf Hlo Hnd Hspan Hinv Hrun. revert now Hwf Hlo Hnd Hspan Hinv.
  induction Hrun as [|s order ev s1 events s2 Hp Hstep _ IH];
    intros now Hwf Hlo Hnd Hspan Hinv; [by exists now|].
  destruct Hnd as [Hnow Hnd]. apply Forall_cons in Hspan as [Hev Hspan].
  destruct (good_processEvent order ev s s1) as [Hwf1 Hev1];
    [done|by apply order_valid|done|].
  apply (IH (Time ev)); [done|lia|done|done|].
  by apply (evolves_timely ev lo now s s1).
Qed.

(** C2, as amended: when the events arrive with timestamps that never
    decrease, from [lo] on, and none is more than the largest duration
    (2^63 - 1 ns) after [lo], every record of every state a run reaches
    has a total time no smaller than its adjusted time. *)
Theorem total_ge_adjusted lo events s a :
  nondecreasing lo events →
  Forall (λ ev, Time ev - lo ≤ maxDuration) events →
  run initState events s → (a < length (heap s))%nat →
  AdjustedExecutionTime (load s a) ≤ TotalExecutionTime (load s a).
Proof.
  intros Hnd Hspan Hrun Ha.
  assert (∀ b, (b < length (heap initState))%nat → timely lo lo (load initState b))
    as Hinit by (intros b Hb; simpl in Hb; lia).
  destruct (run_timely lo initState events s lo wf_initState ltac:(lia)
              Hnd Hspan Hinit Hrun) as [now Hinv].
  destruct (Hinv a Ha) as (_ & ? & _). lia.
Qed.

Lemma total_ge_adjusted_witness :
  AdjustedExecutionTime (load (finalState scenarioB) 0%nat)
    ≤ TotalExecutionTime (load (finalState scenarioB) 0%nat).
Proof.
  apply (total_ge_adjusted 0 scenarioB (finalState scenarioB) 0%nat).
  - vm_compute. intuition discriminate.
  - repeat constructor; vm_compute; discriminate.
  - apply exec_run. vm_compute. reflexivity.
  - vm_compute. lia.
Defined.

Lemma scenarioLong_run : run initState scenarioLong (finalState scenarioLong).
Proof. apply exec_run. vm_compute. reflexivity. Qed.

(** C2, as stated, fails: the timestamps of [scenarioLong] never
    decrease, and the run ends with a total time of [A] that has wrapped
    around to -2^63 ns, below its adjusted time. *)
Lemma total_below_adjusted_after_overflow :
  ∃ s a, nondecreasing 0 scenarioLong ∧ run initState scenarioLong s ∧
         (a < length (heap s))%nat ∧
         TotalExecutionTime (load s a) = minDuration ∧
         TotalExecutionTime (load s a) < AdjustedExecutionTime (load s a).
Proof.
  exists (finalState scenarioLong), 0%nat. split_and!.
  - vm_compute. intuition discriminate.
  - exact scenarioLong_run.
  - vm_compute. lia.
  - vm_compute. reflexivity.
  - vm_compute. reflexivity.
Qed.

(** ** Assumed-stopped records are frozen *)

Lemma effect_frozen ev a r0 r r' :
  leavesAsleep (Name r0) ev → effect ev a r r' → frozen r0 r → frozen r0 r'.
Proof.
  intros Hev Heff (Hname & Hd & Hadj & Htot).
  destruct Heff as [r count r' Hnd Hadv| | | | |r Hact Hn|r Hact Hn]; try done.
  - congruence.
  - destruct Hev as [? _]; [congruence|done].
  - destruct Hev as [_ ?]; [congruence|done].
Qed.

Lemma effects_frozen ev a r0 r r' :
  leavesAsleep (Name r0) ev → rtc (effect ev a) r r' → frozen r0 r → frozen r0 r'.
Proof. intros Hev. induction 1; [done|]. eauto using effect_frozen. Qed.

Lemma run_keeps_frozen r0 s events s' a :
  wf s → (a < length (heap s))%nat → frozen r0 (load s a) →
  Forall (leavesAsleep (Name r0)) events →
  run s events s' → frozen r0 (load s' a).
Proof.
  intros Hwf Ha Hfr Hevs Hrun. revert Hwf Ha Hevs Hfr.
  induction Hrun as [|s order ev s1 events s2 Hp Hstep _ IH];
    intros Hwf Ha Hevs Hfr; [done|].
  apply Forall_cons in Hevs as [Hev Hevs].
  destruct (good_processEvent order ev s s1) as [Hwf1 (Hlen & Hold & _)];
    [done|by apply order_valid|done|].
  apply IH; [done|lia|done|].
  eapply effects_frozen; [done|by apply Hold|done].
Qed.

(** A record that is assumed stopped keeps its adjusted and total time
    for as long as no pause or continue event names its test. *)
Lemma run_frozen s events s' a :
  wf s → (a < length (heap s))%nat → AssumedStopped (load s a) = true →
  Forall (leavesAsleep (Name (load s a))) events →
  run s events s' → frozen (load s a) (load s' a).
Proof. intros Hwf Ha Hd. by apply run_keeps_frozen. Qed.





(** ** The iteration order of the update loops *)

Lemma state_ext s s1 s2 :
  retimed s s1 → retimed s s2 → (∀ b, load s1 b = load s2 b) → s1 = s2.
Proof.
  intros (Ha1 & Hr1 & Ho1 & Hl1 & _) (Ha2 & Hr2 & Ho2 & Hl2 & _) Hload.
  destruct s1 as [h1 al1 ru1 o1], s2 as [h2 al2 ru2 o2]. simpl in *.
  f_equal; try congruence.
  apply list_eq. intros i. destruct (decide (i < length h1)%nat) as [Hi|Hi].
  - rewrite (list_lookup_lookup_total_lt h1 i) by done.
    rewrite (list_lookup_lookup_total_lt h2 i) by lia.
    f_equal. apply (Hload i).
  - rewrite !lookup_ge_None_2; [done|lia|lia].
Qed.

Lemma activeCount_retimed s s' : retimed s s' → activeCount s' = activeCount s.
Proof.
  intros Hr. unfold activeCount, running.
  destruct (Hr) as (_ & -> & _). f_equal. apply list_filter_iff. intros a.
  by destruct (retimed_flags _ _ a Hr) as (_ & _ & _ & -> & _).
Qed.

Lemma foldUpdate_order ev count s l1 l2 :
  l1 ≡ₚ l2 → NoDup l2 → Forall (λ a, (a < length (heap s))%nat) l2 →
  (∀ a, a ∈ l2 → AssumedStopped (load s a) = false → count ≠ 0%nat) →
  foldResult (λ a s, updateExecutionTimesWithCount a ev count s) l1 s
  = foldResult (λ a s, updateExecutionTimesWithCount a ev count s) l2 s.
Proof.
  intros Hp Hnd Hval Hcount.
  destruct (foldUpdate_spec ev count l2 s Hnd Hval Hcount) as (s2 & -> & Hr2 & Hload2).
  destruct (foldUpdate_spec ev count l1 s) as (s1 & -> & Hr1 & Hload1).
  - by rewrite Hp.
  - by rewrite Hp.
  - intros a Ha. apply Hcount. by rewrite <-Hp.
  - f_equal. apply (state_ext s); [done|done|].
    intros b. rewrite Hload1, Hload2.
    destruct (decide (b ∈ l2 ∧ AssumedStopped (load s b) = false)) as [[Hb Hd]|Hn].
    + rewrite decide_True; [done|]. by rewrite Hp.
    + rewrite decide_False; [done|]. by rewrite Hp.
Qed.

Lemma activeCount_order s order :
  order ≡ₚ running s →
  length (filter (λ a, AssumedStopped (load s a) = false) order) = activeCount s.
Proof. intros Hp. unfold activeCount. by rewrite Hp. Qed.

(** The two loops of [updateRunningTests] may visit the running tests in
    any order. *)
Lemma updateRunningTests_order ev s order :
  wf s → order ≡ₚ running s →
  foldResult (λ a s', updateExecutionTimesWithCount a ev
                        (length (filter (λ a, AssumedStopped (load s a) = false) order)) s')
    order s
  = updateRunningTests ev s.
Proof.
  intros Hwf Hp. rewrite (activeCount_order s order Hp). unfold updateRunningTests.
  apply foldUpdate_order; [done|by apply running_NoDup| |].
  - apply Forall_forall. intros a. by apply running_valid.
  - intros a Ha Hd.
    assert (a ∈ active s) as Hin by (by apply elem_of_active).
    unfold activeCount. unfold active in Hin.
    destruct (filter _ _); [by apply elem_of_nil in Hin|done].
Qed.

Lemma updateAll_fixed ev s0 l : ∀ s,
  retimed s0 s →
  foldResult (λ a s, updateExecutionTimes a ev s) l s
  = foldResult (λ a s, updateExecutionTimesWithCount a ev (activeCount s0) s) l s.
Proof.
  induction l as [|a l IH]; intros s Hr; cbn [foldResult]; [done|].
  change (updateExecutionTimes a ev s)
    with (updateExecutionTimesWithCount a ev (activeCount s) s).
  rewrite (activeCount_retimed _ _ Hr).
  destruct (updateExecutionTimesWithCount a ev (activeCount s0) s) as [s1| |] eqn:Hs1;
    [|done|done].
  cbn [bind]. apply IH. eapply retimed_trans; [exact Hr|].
  apply updateExecutionTimesWithCount_Ok in Hs1 as [->|(_ & r' & Hadv & ->)].
  - apply retimed_refl.
  - by eapply retimed_advance.
Qed.

(** So may the loop of [handleCont]. *)
Lemma updateAll_order ev s order :
  wf s → order ≡ₚ running s →
  foldResult (λ a s, updateExecutionTimes a ev s) order s
  = foldResult (λ a s, updateExecutionTimes a ev s) (running s) s.
Proof.
  intros Hwf Hp. rewrite !(updateAll_fixed ev s) by apply retimed_refl.
  apply foldUpdate_order; [done|by apply running_NoDup| |].
  - apply Forall_forall. intros a. by apply running_valid.
  - intros a Ha Hd.
    assert (a ∈ active s) as Hin by (by apply elem_of_active).
    unfold activeCount. unfold active in Hin.
    destruct (filter _ _); [by apply elem_of_nil in Hin|done].
Qed.

(** ** The order of the names searched for a parent *)







(** ** The recursion budget is never used up *)

Lemma bind_fuel {A B} (r : Result A) (k : A → Result B) :
  r ≠ OutOfFuel → (∀ a, r = Ok a → k a ≠ OutOfFuel) → bind r k ≠ OutOfFuel.
Proof. destruct r; simpl; [by eauto|done|done]. Qed.

Lemma advance_fuel now count r : advance now count r ≠ OutOfFuel.
Proof. unfold advance. by case_decide. Qed.

Lemma updateExecutionTimesWithCount_fuel a ev count s :
  updateExecutionTimesWithCount a ev count s ≠ OutOfFuel.
Proof.
  unfold updateExecutionTimesWithCount. destruct (AssumedStopped _); [done|].
  apply bind_fuel; [apply advance_fuel|done].
Qed.

Lemma updateExecutionTimes_fuel a ev s : updateExecutionTimes a ev s ≠ OutOfFuel.
Proof. apply (updateExecutionTimesWithCount_fuel a ev (activeCount s) s). Qed.

Lemma foldResult_fuel {A S} (f : A → S → Result S) l s :
  (∀ a s, f a s ≠ OutOfFuel) → foldResult f l s ≠ OutOfFuel.
Proof.
  intros Hf. revert s. induction l as [|a l IH]; intros s; simpl; [done|].
  apply bind_fuel; [apply Hf|auto].
Qed.

Lemma updateRunningTests_fuel ev s : updateRunningTests ev s ≠ OutOfFuel.
Proof.
  apply foldResult_fuel. intros a s'. apply updateExecutionTimesWithCount_fuel.
Qed.

Lemma stopSibling_false fuel ev rt parent : ∀ ps s s',
  stopSibling fuel ev rt ps parent s = Ok (false, s') → s' = s.
Proof.
  induction fuel as [|fuel IH]; intros ps s s'; simpl; [done|].
  destruct (Parent (load s ps)) as [p|]; [|by intros [= <-]].
  destruct (_ && _).
  - intros (s1 & _ & (new & _ & [=])%bind_Ok)%bind_Ok.
  - destruct (Parent (load s p)); [apply IH|by intros [= <-]].
Qed.

Lemma stopSibling_fuel ev rt parent s fuel : ∀ ps : addr,
  wf s → (ps < fuel)%nat → (ps < length (heap s))%nat →
  stopSibling fuel ev rt ps parent s ≠ OutOfFuel.
Proof.
  induction fuel as [|fuel IH]; intros ps Hwf Hfuel Hps; [lia|]. simpl.
  destruct (Parent (load s ps)) as [p|] eqn:Hp; [|done].
  pose proof (wf_parent _ Hwf _ _ Hps Hp) as Hlt.
  destruct (_ && _).
  - apply bind_fuel; [apply updateExecutionTimes_fuel|]. intros s1 _.
    apply bind_fuel; [|done]. unfold lookupAll. by destruct (_ !! _).
  - destruct (Parent (load s p)); [|done]. apply IH; [done|lia|lia].
Qed.

Lemma stopSiblings_fuel ev parent s order :
  wf s → Forall (λ a, (a < length (heap s))%nat) order →
  stopSiblings order ev parent s ≠ OutOfFuel.
Proof.
  intros Hwf. induction order as [|rt order IH]; intros Hord; cbn [stopSiblings]; [done|].
  apply Forall_cons in Hord as [Hrt Hord].
  apply bind_fuel; [apply stopSibling_fuel; [done|lia|done]|].
  intros [[|] s1] Hstop; cbn [fst snd]; [done|].
  apply stopSibling_false in Hstop as ->. by apply IH.
Qed.

(** On a well-formed state no handler exhausts the budget of
    [stopSibling]: what is not [Ok] in a run is a panic of the program. *)
Lemma processEvent_fuel order ev s :
  wf s → order ≡ₚ running s → processEvent order ev s ≠ OutOfFuel.
Proof.
  intros Hwf Hp. unfold processEvent. repeat case_decide; try done.
  - unfold handleRun.
    destruct (good_alloc ev s Hwf) as [Hwf1 _].
    set (s1 := mkState _ _ _ _) in *.
    assert (∀ s2, (do s3 <- updateRunningTests ev s2;
                   Ok (insertRunning (Test ev) (length (heap s)) s3)) ≠ OutOfFuel)
      as Hfinish.
    { intros s2. apply bind_fuel; [apply updateRunningTests_fuel|done]. }
    destruct (isSubTest (Test ev)) as [parent [|]]; [|apply Hfinish].
    apply bind_fuel.
    { unfold resolveParent. destruct (_ !! _); [done|]. by case_decide. }
    intros parent' _. destruct (runningTests s1 !! parent').
    + case_decide; [|done]. apply bind_fuel; [apply updateExecutionTimes_fuel|done].
    + apply bind_fuel.
      * apply stopSiblings_fuel; [done|]. by apply (order_valid s1).
      * intros [[|] s2] _; cbn [fst snd]; [done|apply Hfinish].
  - unfold handlePause. destruct (_ !! _); [|done].
    apply bind_fuel; [apply updateRunningTests_fuel|done].
  - unfold handleCont. destruct (_ !! _); [|done].
    apply bind_fuel; [|done]. apply foldResult_fuel.
    intros ? ?. apply updateExecutionTimes_fuel.
  - unfold handleStop. destruct (_ !! _); [|done].
    destruct (Parent _).
    + apply bind_fuel; [|done].
      destruct (length _) as [|[|n]]; [done| |].
      * apply bind_fuel; [apply updateExecutionTimes_fuel|done].
      * apply bind_fuel; [|done].
        destruct (AssumedStopped _); [done|apply updateRunningTests_fuel].
    + apply bind_fuel; [apply updateRunningTests_fuel|done].
Qed.

(** ** Parallel tests are never assumed stopped *)

(** No assignment of a handler clears [Parallel]. *)
Lemma effect_Parallel ev a r r' : effect ev a r r' → Parallel r = true → Parallel r' = true.
Proof.
  destruct 1 as [r count r' Hd Hadv| | | | | |]; simpl; try done.
  apply advance_Ok in Hadv as [_ ->]. done.
Qed.

Lemma effects_Parallel ev a r r' :
  rtc (effect ev a) r r' → Parallel r = true → Parallel r' = true.
Proof. induction 1; [done|]. eauto using effect_Parallel. Qed.

Lemma run_Parallel s events s' a :
  wf s → (a < length (heap s))%nat → Parallel (load s a) = true →
  run s events s' → (a < length (heap s'))%nat ∧ Parallel (load s' a) = true.
Proof.
  intros Hwf Ha Hp Hrun. revert Hwf Ha Hp.
  induction Hrun as [|s order ev s1 events s2 Hperm Hstep _ IH];
    intros Hwf Ha Hp; [done|].
  destruct (good_processEvent order ev s s1) as [Hwf1 (Hlen & Hold & _)];
    [done|by apply order_valid|done|].
  apply IH; [done|lia|]. eapply effects_Parallel; [by apply Hold|done].
Qed.

Lemma updateRunningTests_retimed ev s s' :
  updateRunningTests ev s = Ok s' → retimed s s'.
Proof.
  unfold updateRunningTests. intros Hupd.
  apply (foldResult_invariant (retimed s)) in Hupd; [done| |apply retimed_refl].
  intros a s1 s2 Hr Hstep. eapply retimed_trans; [exact Hr|].
  apply updateExecutionTimesWithCount_Ok in Hstep as [->|(_ & r' & Hadv & ->)];
    [apply retimed_refl|by eapply retimed_advance].
Qed.

Lemma handlePause_Parallel ev s s' (a : addr) :
  (a < length (heap s))%nat → runningTests s !! Test ev = Some a →
  handlePause ev s = Ok s' → Parallel (load s' a) = true.
Proof.
  intros Ha Hrun. unfold handlePause. rewrite Hrun.
  intros (s1 & Hupd & [= <-])%bind_Ok.
  apply updateRunningTests_retimed in Hupd.
  destruct (retimed_flags _ _ a Hupd) as (_ & _ & _ & _ & Hp).
  change (load (deleteRunning (Test ev) s1) a) with (load s1 a). rewrite Hp.
  rewrite load_modify_eq by (by rewrite length_modify).
  by rewrite load_modify_eq.
Qed.

Lemma pausedBy_Parallel order ev s s' (a : addr) :
  wf s → pausedBy ev s a → processEvent order ev s = Ok s' →
  Parallel (load s' a) = true.
Proof.
  intros Hwf (Hne & Hact & Hrun). unfold processEvent.
  rewrite decide_False by done. rewrite Hact. decide_strings.
  apply handlePause_Parallel; [|done]. by apply (wf_running _ Hwf _ _ Hrun).
Qed.

(** [stopSibling] leaves a parallel test alone. *)
Lemma stopSibling_Parallel ev rt parent s fuel : ∀ ps,
  Parallel (load s rt) = true →
  stopSibling fuel ev rt ps parent s = OutOfFuel ∨
  stopSibling fuel ev rt ps parent s = Ok (false, s).
Proof.
  induction fuel as [|fuel IH]; intros ps Hp; [by left|].
  cbn [stopSibling]. destruct (Parent (load s ps)) as [p|]; [|by right].
  rewrite Hp, andb_false_r. cbn [negb andb].
  destruct (Parent (load s p)); [by apply IH|by right].
Qed.

(** C9: no state of a run from the initial state has a record that is
    both parallel and assumed stopped, and a record stays parallel once
    it is.  So when a record is parallel, or the next event is a pause
    that [handlePause] accepts for it, the record is parallel and not
    assumed stopped after any further events, and the sibling search of
    [handleRun] then returns from it without a change. *)
Theorem parallel_never_dormant events s events' s' (a : addr) :
  run initState events s → run s events' s' → (a < length (heap s))%nat →
  (Parallel (load s a) = true → AssumedStopped (load s a) = false) ∧
  (Parallel (load s a) = true ∨
   (∃ ev events'', events' = ev :: events'' ∧ pausedBy ev s a) →
   Parallel (load s' a) = true ∧ AssumedStopped (load s' a) = false ∧
   ∀ ev' parent,
     stopSibling (S (length (heap s'))) ev' a a parent s' = Ok (false, s')).
Proof.
  intros Hs Hrun Ha.
  pose proof (run_wf _ _ _ wf_initState Hs) as Hwf.
  assert (exclusive s) as Hex.
  { apply (run_exclusive initState events s); [apply wf_initState| |done].
    intros b Hb. simpl in Hb. lia. }
  pose proof (run_exclusive _ _ _ Hwf Hex Hrun) as Hex'.
  pose proof (run_wf _ _ _ Hwf Hrun) as Hwf'.
  split; [by apply Hex|]. intros Hpar.
  assert ((a < length (heap s'))%nat ∧ Parallel (load s' a) = true) as [Ha' Hp'].
  { destruct Hpar as [Hp|(ev & events'' & -> & Hpaused)];
      [exact (run_Parallel s events' s' a Hwf Ha Hp Hrun)|].
    inversion Hrun as [|? order ? s1 ? ? Hperm Hstep Hrest]; subst.
    destruct (good_processEvent order ev s s1) as [Hwf1 (Hlen & _)];
      [done|by apply order_valid|done|].
    apply (run_Parallel s1 events'' s' a); [done|lia| |done].
    exact (pausedBy_Parallel order ev s s1 a Hwf Hpaused Hstep). }
  split_and!; [done|by apply Hex'|].
  intros ev' parent.
  destruct (stopSibling_Parallel ev' a parent s' (S (length (heap s'))) a Hp')
    as [Hfuel|Hok]; [|done].
  by apply stopSibling_fuel in Hfuel; [|done|lia|done].
Qed.

Lemma parallel_never_dormant_witness :
  Parallel (load (finalState (scenarioSub ++ pauseSub :: scenarioSubMore)) 1%nat) = true ∧
  AssumedStopped (load (finalState (scenarioSub ++ pauseSub :: scenarioSubMore)) 1%nat)
    = false ∧
  runningTests (finalState (scenarioSub ++ pauseSub :: scenarioSubMore)) !! "P/a"
    = Some 1%nat ∧
  runningTests (finalState (scenarioSub ++ pauseSub :: scenarioSubMore)) !! "P/b"
    = Some 2%nat.
Proof.
  assert (run initState scenarioSub (finalState scenarioSub)) as Hs
    by (apply exec_run; vm_compute; reflexivity).
  assert (run (finalState scenarioSub) (pauseSub :: scenarioSubMore)
            (finalState (scenarioSub ++ pauseSub :: scenarioSubMore))) as Hrun
    by (apply exec_run; vm_compute; reflexivity).
  assert ((1 < length (heap (finalState scenarioSub)))%nat) as Ha by (vm_compute; lia).
  assert (pausedBy pauseSub (finalState scenarioSub) 1%nat) as Hpaused.
  { split_and!; [discriminate|reflexivity|vm_compute; reflexivity]. }
  destruct (parallel_never_dormant _ _ _ _ 1%nat Hs Hrun Ha) as [_ H].
  destruct H as (Hp & Hd & _).
  { right. by exists pauseSub, scenarioSubMore. }
  split_and!; [exact Hp|exact Hd|vm_compute; reflexivity|vm_compute; reflexivity].
Defined.

(** ** [isSubTest] against the regular expression *)

Lemma splitLastSlash_spec s :
  match splitLastSlash s with
  | Some (p, leaf) =>
      s = p +:+ String "/" leaf ∧ leaf ≠ EmptyString ∧
      ∀ p' leaf', s = p' +:+ String "/" leaf' → leaf' ≠ EmptyString →
                  (String.length p' ≤ String.length p)%nat
  | None => ∀ p' leaf', s = p' +:+ String "/" leaf' → leaf' = EmptyString
  end.
Proof.
  induction s as [|c rest IH]; simpl.
  - by intros [|??] ?.
  - destruct (splitLastSlash rest) as [[p leaf]|].
    + destruct IH as (-> & Hleaf & Hmax). split_and!; [done|done|].
      intros [|c' p'] leaf'; simpl; [lia|]. intros [= -> Hrest] Hl.
      apply le_n_S. by eapply Hmax.
    + case_decide as Hc.
      * destruct Hc as [-> Hrest]. split_and!; [done|done|].
        intros [|c' p'] leaf'; simpl; [lia|]. intros [= <- Hr] Hl.
        by rewrite (IH _ _ Hr) in Hl.
      * intros [|c' p'] leaf'; simpl.
        -- intros [= Hc' <-]. destruct rest; [done|]. exfalso. by apply Hc.
        -- intros [= -> Hr]. by eapply IH.
Qed.

(** A name [isSubTest] accepts matches the expression, and the parent
    returned is the longest the group can capture, as the greedy [\S+]
    has it. *)
Lemma isSubTest_matches test parent :
  isSubTest test = (parent, true) →
  matchesSubTest test parent ∧
  ∀ parent', matchesSubTest test parent' →
             (String.length parent' ≤ String.length parent)%nat.
Proof.
  unfold isSubTest. destruct (allNonSpace test) eqn:Hns; [|done].
  pose proof (splitLastSlash_spec test) as Hspec.
  destruct (splitLastSlash test) as [[p leaf]|]; [|done].
  case_decide; [done|]. intros [= <-].
  destruct Hspec as (Heq & Hleaf & Hmax). split.
  - by exists leaf.
  - intros parent' (leaf' & Heq' & _ & Hleaf' & _). by eapply Hmax.
Qed.

(** A name [isSubTest] rejects does not match the expression. *)
Lemma isSubTest_no_match test parent :
  isSubTest test = (parent, false) →
  parent = EmptyString ∧ ∀ parent', ¬ matchesSubTest test parent'.
Proof.
  unfold isSubTest. destruct (allNonSpace test) eqn:Hns.
  - pose proof (splitLastSlash_spec test) as Hspec.
    destruct (splitLastSlash test) as [[p leaf]|].
    + case_decide as Hp; [|done]. intros [= <-]. split; [done|].
      intros parent' (leaf' & Heq' & Hne & Hleaf' & _).
      destruct Hspec as (_ & _ & Hmax).
      specialize (Hmax _ _ Heq' Hleaf'). subst p. simpl in Hmax.
      destruct parent'; [done|simpl in Hmax; lia].
    + intros [= <-]. split; [done|].
      intros parent' (leaf' & Heq' & _ & Hleaf' & _). by apply Hleaf', (Hspec parent').
  - intros [= <-]. split; [done|]. intros parent' (leaf' & _ & _ & _ & Hns').
    congruence.
Qed.

(** ** The report of a run *)

Lemma wrap64_inDuration z : inDuration (wrap64 z).
Proof.
  unfold inDuration, wrap64, minDuration, maxDuration.
  pose proof (Z.mod_pos_bound (z + 2 ^ 63) (2 ^ 64) ltac:(lia)). lia.
Qed.

Lemma effect_ranged ev a r r' : effect ev a r r' → ranged r → ranged r'.
Proof.
  destruct 1 as [r count r' _ Hadv| | | | | |]; try done.
  apply advance_Ok in Hadv as [_ ->]. intros _. split; apply wrap64_inDuration.
Qed.

Lemma effects_ranged ev a r r' : rtc (effect ev a) r r' → ranged r → ranged r'.
Proof. induction 1; [done|]. eauto using effect_ranged. Qed.

(** The two accumulators of every record of a run are in the range of a
    duration. *)
Lemma run_ranged s events s' :
  wf s → (∀ a, (a < length (heap s))%nat → ranged (load s a)) →
  run s events s' → ∀ a, (a < length (heap s'))%nat → ranged (load s' a).
Proof.
  intros Hwf Hinv Hrun.
  induction Hrun as [|s order ev s1 events s2 Hp Hstep _ IH]; [done|].
  destruct (good_processEvent order ev s s1) as [Hwf1 (Hlen & Hold & Hnew)];
    [done|by apply order_valid|done|].
  apply IH; [done|]. intros a Ha. destruct (decide (a < length (heap s))%nat).
  - eapply effects_ranged; [by apply Hold|by apply Hinv].
  - eapply effects_ranged; [apply Hnew; lia|].
    split; simpl; unfold inDuration, minDuration, maxDuration; lia.
Qed.

Lemma mapResult_Ok {A B} (f : A → Result B) l bs :
  mapResult f l = Ok bs → Forall2 (λ a b, f a = Ok b) l bs.
Proof.
  revert bs. induction l as [|a l IH]; intros bs; simpl.
  - intros [= <-]. constructor.
  - intros (b & Hb & (bs' & Hbs & [= <-])%bind_Ok)%bind_Ok. constructor; auto.
Qed.

(** When the report of a run is printed to its end, every line is the
    line of one of the first [resultsToList] names, and what follows
    [parallel:] is the truncated quotient of the two rounded times. *)
Lemma report_of_run events s keys lines :
  run initState events s → report keys s = Ok lines →
  Forall2 (λ k line, ∃ a,
    allTests s !! k = Some a ∧
    line = mkReportLine (Package (load s a)) (Name (load s a))
             (Round (AdjustedExecutionTime (load s a)) Millisecond)
             (if decide (Round (AdjustedExecutionTime (load s a)) Millisecond
                         = Round (TotalExecutionTime (load s a)) Millisecond)
              then None
              else Some (Round (TotalExecutionTime (load s a)) Millisecond,
                         Z.quot (Round (TotalExecutionTime (load s a)) Millisecond)
                           (Round (AdjustedExecutionTime (load s a)) Millisecond))))
    (take resultsToList keys) lines.
Proof.
  intros Hrun Hrep. pose proof (run_wf _ _ _ wf_initState Hrun) as Hwf.
  apply mapResult_Ok in Hrep. eapply Forall2_impl; [exact Hrep|].
  intros k line (a & Hlook & Hline)%bind_Ok. cbv beta in *.
  unfold lookupAll in Hlook. destruct (allTests s !! k) as [a'|] eqn:Hk; [|done].
  injection Hlook as ->. exists a. split; [done|].
  destruct (wf_all _ Hwf _ _ Hk) as [Ha _].
  assert (∀ b, (b < length (heap initState))%nat → ranged (load initState b))
    as Hinit by (intros b Hb; simpl in Hb; lia).
  destruct (run_ranged initState events s wf_initState Hinit Hrun a Ha) as [Hadj Htot].
  destruct (Round_Millisecond _ Hadj) as [_ Hbig].
  destruct (Round_Millisecond _ Htot) as [Hrange _].
  unfold reportLine in Hline.
  set (adjusted := Round (AdjustedExecutionTime (load s a)) Millisecond) in *.
  set (total := Round (TotalExecutionTime (load s a)) Millisecond) in *.
  destruct (decide (adjusted = total)) as [Heq|Hne].
  - rewrite decide_False in Hline by (intros Hn; by apply Hn). by injection Hline as <-.
  - rewrite decide_True in Hline by done.
    case_decide as Hz; [done|]. injection Hline as <-.
    rewrite wrap64_id; [done|].
    apply quot_inDuration; [done|]. unfold Millisecond in Hbig. lia.
Qed.

(** ** The two maps *)

Lemma tidy_modify a f s :
  tidy s → Name (f (load s a)) = Name (load s a) → tidy (modify a f s).
Proof.
  intros [Hn Hr He] Hname. split; [|done|done].
  intros b. rewrite length_modify, load_modify. intros Hb.
  case_decide as Hc; [|by apply Hn]. destruct Hc as [<- _]. rewrite Hname. by apply Hn.
Qed.

Lemma tidy_retimed s s' : tidy s → retimed s s' → tidy s'.
Proof.
  intros [Hn Hr He] Hret. destruct (Hret) as (Hall & Hrun & _ & Hlen & _).
  split; rewrite ?Hall, ?Hrun; [|done|done].
  intros a. rewrite Hlen.
  destruct (retimed_flags _ _ a Hret) as (-> & _). apply Hn.
Qed.

Lemma tidy_insertRunning k a s :
  tidy s → is_Some (allTests s !! k) → tidy (insertRunning k a s).
Proof.
  intros [Hn Hr He] Hk. split; [done| |done].
  intros k'. unfold insertRunning. simpl. rewrite lookup_insert.
  case_decide; [by subst|apply Hr].
Qed.

Lemma tidy_deleteRunning k s : tidy s → tidy (deleteRunning k s).
Proof.
  intros [Hn Hr He]. split; [done| |done].
  intros k'. unfold deleteRunning. simpl. rewrite lookup_delete.
  case_decide; [by intros [? ?]|apply Hr].
Qed.

Lemma tidy_printLine line s : tidy s → tidy (printLine line s).
Proof. by intros [Hn Hr He]. Qed.

Lemma tidy_alloc ev s :
  tidy s → Test ev ≠ EmptyString →
  tidy (mkState (heap s ++ [newTest ev]) (<[Test ev := length (heap s)]> (allTests s))
          (runningTests s) (stdout s)).
Proof.
  destruct s as [h al ru out]. intros [Hn Hr He] Hne. simpl in *. split; simpl.
  - intros a. rewrite length_app. simpl. intros Ha.
    destruct (decide (a < length h)%nat).
    + rewrite load_alloc_old by done. rewrite lookup_insert. case_decide; [done|].
      by apply Hn.
    + assert (a = length h) as -> by lia. rewrite load_alloc_new. simpl.
      by rewrite lookup_insert_eq.
  - intros k Hk. rewrite lookup_insert. case_decide; [done|by apply Hr].
  - by rewrite lookup_insert_ne.
Qed.

Lemma updateExecutionTimes_retimed a ev s s' :
  updateExecutionTimes a ev s = Ok s' → retimed s s'.
Proof.
  intros [->|(_ & r' & Hadv & ->)]%updateExecutionTimes_Ok;
    [apply retimed_refl|by eapply retimed_advance].
Qed.

Lemma updateExecutionTimesWithCount_retimed a ev count s s' :
  updateExecutionTimesWithCount a ev count s = Ok s' → retimed s s'.
Proof.
  intros [->|(_ & r' & Hadv & ->)]%updateExecutionTimesWithCount_Ok;
    [apply retimed_refl|by eapply retimed_advance].
Qed.

Lemma updateAll_retimed ev l s s' :
  foldResult (λ a s, updateExecutionTimes a ev s) l s = Ok s' → retimed s s'.
Proof.
  intros Hupd.
  apply (foldResult_invariant (retimed s)) in Hupd; [done| |apply retimed_refl].
  intros a s1 s2 Hr Hstep. eapply retimed_trans; [exact Hr|].
  by eapply updateExecutionTimes_retimed.
Qed.

Lemma tidy_stopSibling ev rt parent fuel : ∀ (ps : addr) s b s',
  tidy s → stopSibling fuel ev rt ps parent s = Ok (b, s') →
  tidy s' ∧ allTests s' = allTests s.
Proof.
  induction fuel as [|fuel IH]; intros ps s b s' Ht; simpl; [done|].
  destruct (Parent (load s ps)) as [p|]; [|by intros [= <- <-]].
  destruct (_ && _).
  - intros (s1 & Hs1 & (new & Hlook & [= <- <-])%bind_Ok)%bind_Ok.
    apply updateExecutionTimes_retimed in Hs1.
    pose proof (tidy_retimed _ _ Ht Hs1) as Ht1.
    destruct Hs1 as (Hall1 & _). unfold lookupAll in Hlook. simpl in Hlook.
    destruct (allTests s1 !! Test ev) as [new'|] eqn:Hnew; [|done].
    injection Hlook as ->. split; [|done].
    apply tidy_insertRunning; [|simpl; by rewrite Hnew].
    repeat (apply tidy_modify; [|done]). done.
  - destruct (Parent (load s p)); [by apply IH|by intros [= <- <-]].
Qed.

Lemma tidy_stopSiblings ev parent order : ∀ s r,
  tidy s → stopSiblings order ev parent s = Ok r →
  tidy r.2 ∧ allTests r.2 = allTests s.
Proof.
  induction order as [|rt order IH]; intros s r Ht Hrun; cbn [stopSiblings] in Hrun.
  - by injection Hrun as <-.
  - apply bind_Ok in Hrun as ([b s1] & Hstop & Hrest).
    destruct (tidy_stopSibling _ _ _ _ _ _ _ _ Ht Hstop) as [Ht1 Hall1].
    cbn [fst snd] in Hrest. destruct b.
    + by injection Hrest as <-.
    + apply stopSibling_false in Hstop as ->. by apply IH.
Qed.

Lemma tidy_processEvent order ev s s' :
  wf s → tidy s → processEvent order ev s = Ok s' → tidy s'.
Proof.
  intros Hwf Ht. unfold processEvent. repeat case_decide; try by intros [= <-].
  - unfold handleRun.
    pose proof (tidy_alloc ev s Ht ltac:(done)) as Ht1.
    set (new := length (heap s)) in *.
    set (s1 := mkState _ _ _ _) in *.
    assert (is_Some (allTests s1 !! Test ev)) as Hnew
      by (subst s1; simpl; by rewrite lookup_insert_eq).
    assert (∀ s2, tidy s2 → allTests s2 = allTests s1 →
              (do s3 <- updateRunningTests ev s2; Ok (insertRunning (Test ev) new s3)) = Ok s' →
              tidy s') as Hfinish.
    { intros s2 Ht2 Hall2 (s3 & Hupd & [= <-])%bind_Ok.
      apply updateRunningTests_retimed in Hupd.
      apply tidy_insertRunning; [by eapply tidy_retimed|].
      destruct Hupd as (-> & _). by rewrite Hall2. }
    destruct (isSubTest (Test ev)) as [parent [|]]; [|by apply Hfinish].
    intros (parent' & _ & Hrest)%bind_Ok.
    destruct (runningTests s1 !! parent') as [runningParent|].
    + case_decide; [|done].
      apply bind_Ok in Hrest as (s4 & Hupd & [= <-]).
      apply updateExecutionTimes_retimed in Hupd.
      apply tidy_insertRunning; [apply tidy_deleteRunning; eapply tidy_retimed; [|done]|].
      * repeat (apply tidy_modify; [|done]). done.
      * simpl. destruct Hupd as (-> & _). done.
    + apply bind_Ok in Hrest as ([b s2] & Hstop & Hrest).
      destruct (tidy_stopSiblings _ _ _ _ _ Ht1 Hstop) as [Ht2 Hall2].
      cbn [fst snd] in *. destruct b; [by injection Hrest as <-|].
      by apply (Hfinish s2).
  - unfold handlePause. destruct (_ !! _); [|intros [= <-]; by apply tidy_printLine].
    intros (s1 & Hupd & [= <-])%bind_Ok. apply tidy_deleteRunning.
    eapply tidy_retimed; [|by eapply updateRunningTests_retimed].
    repeat (apply tidy_modify; [|done]). done.
  - unfold handleCont.
    destruct (allTests s !! Test ev) as [test|] eqn:Htest;
      [|intros [= <-]; by apply tidy_printLine].
    intros (s1 & Hupd & [= <-])%bind_Ok. apply updateAll_retimed in Hupd.
    apply tidy_insertRunning.
    + repeat (apply tidy_modify; [|done]). by eapply tidy_retimed.
    + simpl. destruct Hupd as (-> & _). by rewrite Htest.
  - unfold handleStop.
    destruct (runningTests s !! Test ev) as [test|] eqn:Htest;
      [|intros [= <-]; by apply tidy_printLine].
    destruct (wf_running _ Hwf _ _ Htest) as [Hlt _].
    destruct (Parent (load s test)) as [parent|] eqn:Hparent.
    + pose proof (wf_parent _ Hwf _ _ Hlt Hparent) as Hplt.
      intros (s1 & Hs1 & [= <-])%bind_Ok. apply tidy_deleteRunning.
      destruct (length (Children (load s parent))) as [|[|n]]; [done| |].
      * apply bind_Ok in Hs1 as (s2 & Hupd & [= <-]).
        apply updateExecutionTimes_retimed in Hupd.
        pose proof (tidy_retimed _ _ Ht Hupd) as Ht2.
        apply tidy_modify; [|done]. apply tidy_insertRunning.
        -- by apply tidy_modify.
        -- rewrite load_modify. case_decide; simpl; apply (tidy_names _ Ht2);
             destruct Hupd as (_ & _ & _ & -> & _); lia.
      * apply bind_Ok in Hs1 as (s2 & Hupd & [= <-]).
        apply tidy_modify; [|done].
        destruct (AssumedStopped (load s test)); [by injection Hupd as <-|].
        eapply tidy_retimed; [done|by eapply updateRunningTests_retimed].
    + intros (s1 & Hupd & [= <-])%bind_Ok. apply tidy_deleteRunning.
      eapply tidy_retimed; [done|by eapply updateRunningTests_retimed].
Qed.

Lemma tidy_initState : tidy initState.
Proof.
  split; simpl.
  - intros a Ha. lia.
  - intros k [a Ha]. by rewrite lookup_empty in Ha.
  - apply lookup_empty.
Qed.

Lemma run_tidy s events s' : wf s → tidy s → run s events s' → wf s' ∧ tidy s'.
Proof.
  intros Hwf Ht Hrun.
  induction Hrun as [|s order ev s1 events s2 Hp Hstep _ IH]; [done|].
  apply IH.
  - eapply good_processEvent; [done|by apply order_valid|done].
  - by eapply tidy_processEvent.
Qed.

(** X1: in every state of a run, an entry of [allTests] or of
    [runningTests] holds the address of an allocated record whose [Name]
    is the key of the entry; every name that is running is a key of
    [allTests], every record's name is, and the empty name never is. *)
Theorem registry_invariant events s :
  run initState events s →
  (∀ k a, allTests s !! k = Some a →
          (a < length (heap s))%nat ∧ Name (load s a) = k) ∧
  (∀ k a, runningTests s !! k = Some a →
          (a < length (heap s))%nat ∧ Name (load s a) = k ∧
          is_Some (allTests s !! k)) ∧
  (∀ a, (a < length (heap s))%nat → is_Some (allTests s !! Name (load s a))) ∧
  allTests s !! EmptyString = None.
Proof.
  intros Hrun.
  destruct (run_tidy _ _ _ wf_initState tidy_initState Hrun) as [Hwf Ht].
  split_and!.
  - apply (wf_all _ Hwf).
  - intros k a Hk. destruct (wf_running _ Hwf _ _ Hk). split_and!; [done|done|].
    apply (tidy_running _ Ht). by exists a.
  - apply (tidy_names _ Ht).
  - apply (tidy_nonempty _ Ht).
Qed.

Lemma registry_invariant_witness :
  (2 < length (heap (finalState scenarioE)))%nat ∧
  Name (load (finalState scenarioE) 2%nat) = "P/a2" ∧
  is_Some (allTests (finalState scenarioE) !! "P/a2").
Proof.
  assert (run initState scenarioE (finalState scenarioE)) as Hrun
    by (apply exec_run; vm_compute; reflexivity).
  apply (proj1 (proj2 (registry_invariant scenarioE (finalState scenarioE) Hrun))
           "P/a2" 2%nat).
  vm_compute. reflexivity.
Defined.

Lemma ancestor_root s : wf s → ∀ a : addr,
  (a < length (heap s))%nat →
  ∃ n r, (n ≤ a)%nat ∧ ancestor n s a = Some r ∧ Parent (load s r) = None.
Proof.
  intros Hwf a. induction (lt_wf a) as [a _ IH]. intros Ha.
  destruct (Parent (load s a)) as [p|] eqn:Hp.
  - pose proof (wf_parent _ Hwf _ _ Ha Hp) as Hlt.
    destruct (IH p Hlt ltac:(lia)) as (n & r & Hn & Hanc & Hroot).
    exists (S n), r. split_and!; [lia| |done]. simpl. by rewrite Hp.
  - exists 0%nat, a. split_and!; [lia|done|done].
Qed.

(** X2: in every state of a run the parent of a record was allocated
    before the record, so the parent pointers never form a cycle: from
    any record they lead to a record without parent in at most as many
    steps as the record's address. *)
Theorem parents_form_a_forest events s (a : addr) :
  run initState events s → (a < length (heap s))%nat →
  (∀ p, Parent (load s a) = Some p → (p < a)%nat) ∧
  ∃ n r, (n ≤ a)%nat ∧ ancestor n s a = Some r ∧ Parent (load s r) = None.
Proof.
  intros Hrun Ha. pose proof (run_wf _ _ _ wf_initState Hrun) as Hwf. split.
  - intros p. by apply (wf_parent _ Hwf).
  - by apply ancestor_root.
Qed.

Lemma parents_form_a_forest_witness :
  ∃ n r, (n ≤ 2)%nat ∧ ancestor n (finalState scenarioE) 2%nat = Some r ∧
         Parent (load (finalState scenarioE) r) = None.
Proof.
  assert (run initState scenarioE (finalState scenarioE)) as Hrun
    by (apply exec_run; vm_compute; reflexivity).
  apply (parents_form_a_forest scenarioE (finalState scenarioE) 2%nat Hrun).
  vm_compute. lia.
Defined.

(** X3: in every state of a run the walk of [stopSibling] up the parent
    chain ends within the budget the embedding gives it: no event makes
    [processEvent] answer [OutOfFuel], whatever the iteration order. *)
Theorem sibling_search_terminates events s order ev :
  run initState events s → order ≡ₚ running s →
  processEvent order ev s ≠ OutOfFuel.
Proof.
  intros Hrun Hp. apply processEvent_fuel; [|done].
  by apply (run_wf _ _ _ wf_initState Hrun).
Qed.

Lemma sibling_search_terminates_witness :
  processEvent (running (finalState scenarioE)) (event "run" "P/a3" (ms 20))
    (finalState scenarioE) ≠ OutOfFuel.
Proof.
  apply (sibling_search_terminates scenarioE).
  - apply exec_run. vm_compute. reflexivity.
  - reflexivity.
Defined.

(** ** Panics *)

Lemma bind_Panic {A B} (r : Result A) (k : A → Result B) msg :
  bind r k = Panic msg → r = Panic msg ∨ ∃ a, r = Ok a ∧ k a = Panic msg.
Proof. destruct r as [a| |]; simpl; [by eauto|by intros [= ->]; left|done]. Qed.

Lemma activeCount_pos s a :
  a ∈ running s → AssumedStopped (load s a) = false → activeCount s ≠ 0%nat.
Proof.
  intros Ha Hd. assert (a ∈ active s) as Hin by (by apply elem_of_active).
  unfold activeCount. unfold active in Hin.
  destruct (filter _ _); [by apply elem_of_nil in Hin|done].
Qed.

(** A running test is never advanced with a zero divisor. *)
Lemma updateExecutionTimes_returns a ev s :
  a ∈ running s → ∃ s', updateExecutionTimes a ev s = Ok s'.
Proof.
  intros Ha. unfold updateExecutionTimes.
  destruct (AssumedStopped (load s a)) eqn:Hd; [by eauto|].
  rewrite advance_advanced by (by eapply activeCount_pos). simpl. eauto.
Qed.

Lemma foldUpdate_returns ev count s0 l :
  (∀ a, a ∈ l → AssumedStopped (load s0 a) = false → count ≠ 0%nat) →
  ∀ s, retimed s0 s →
       ∃ s', foldResult (λ a s, updateExecutionTimesWithCount a ev count s) l s = Ok s'.
Proof.
  induction l as [|a l IH]; intros Hcount s Hr; cbn [foldResult]; [by eauto|].
  assert (∃ s1, updateExecutionTimesWithCount a ev count s = Ok s1) as [s1 Hs1].
  { unfold updateExecutionTimesWithCount.
    destruct (AssumedStopped (load s a)) eqn:Hd; [by eauto|].
    rewrite advance_advanced; [simpl; by eauto|].
    apply (Hcount a); [left|].
    by destruct (retimed_flags _ _ a Hr) as (_ & _ & _ & <- & _). }
  rewrite Hs1. cbn [bind]. apply IH.
  - intros b Hb. apply Hcount. by right.
  - eapply retimed_trans; [exact Hr|]. by eapply updateExecutionTimesWithCount_retimed.
Qed.

(** A uniform advance never divides by zero, in any state. *)
Lemma updateRunningTests_returns ev s : ∃ s', updateRunningTests ev s = Ok s'.
Proof.
  unfold updateRunningTests. apply (foldUpdate_returns ev _ s); [|apply retimed_refl].
  intros a. apply activeCount_pos.
Qed.

Lemma updateAll_returns ev s :
  ∃ s', foldResult (λ a s, updateExecutionTimes a ev s) (running s) s = Ok s'.
Proof.
  rewrite (updateAll_fixed ev s) by apply retimed_refl.
  apply (foldUpdate_returns ev _ s); [|apply retimed_refl].
  intros a. apply activeCount_pos.
Qed.

Lemma stopSibling_no_panic ev rt parent fuel msg : ∀ (ps : addr) s,
  rt ∈ running s → is_Some (allTests s !! Test ev) →
  stopSibling fuel ev rt ps parent s ≠ Panic msg.
Proof.
  induction fuel as [|fuel IH]; intros ps s Hrt Hnew; simpl; [done|].
  destruct (Parent (load s ps)) as [p|]; [|done].
  destruct (_ && _).
  - destruct (updateExecutionTimes_returns rt ev s Hrt) as [s1 Hs1].
    rewrite Hs1. cbn [bind]. unfold lookupAll. simpl.
    apply updateExecutionTimes_retimed in Hs1 as (-> & _).
    by destruct Hnew as [new ->].
  - destruct (Parent (load s p)); [by apply IH|done].
Qed.

Lemma stopSiblings_no_panic ev parent s msg order :
  Forall (λ a, a ∈ running s) order → is_Some (allTests s !! Test ev) →
  stopSiblings order ev parent s ≠ Panic msg.
Proof.
  intros Hord Hnew. induction order as [|rt order IH]; cbn [stopSiblings]; [done|].
  apply Forall_cons in Hord as [Hrt Hord].
  destruct (stopSibling _ ev rt rt parent s) as [[[|] s1]| |] eqn:Hstop; cbn [bind fst snd].
  - done.
  - apply stopSibling_false in Hstop as ->. by apply IH.
  - by apply stopSibling_no_panic in Hstop.
  - done.
Qed.

Lemma processEvent_Panic order ev s msg :
  allTests s !! EmptyString = None → order ≡ₚ running s →
  processEvent order ev s = Panic msg →
  msg = "Unknown action: " +:+ Action ev ∨
  (∃ name, msg = "Running parent test has multiple running children: " +:+ name) ∨
  (∃ name, msg = "Parent test has no children: " +:+ name).
Proof.
  intros Hkeys Hp. unfold processEvent. repeat case_decide; try done.
  - unfold handleRun.
    set (new := length (heap s)).
    set (s1 := mkState _ _ _ _).
    assert (is_Some (allTests s1 !! Test ev)) as Hnew
      by (subst s1; simpl; by rewrite lookup_insert_eq).
    assert (∀ s2, (do s3 <- updateRunningTests ev s2;
                   Ok (insertRunning (Test ev) new s3)) ≠ Panic msg) as Hfinish.
    { intros s2. by destruct (updateRunningTests_returns ev s2) as [s3 ->]. }
    destruct (isSubTest (Test ev)) as [parent [|]] eqn:Hsub;
      [|intros H'; by apply Hfinish in H'].
    destruct (resolveParent_returns ev parent s1) as (parent' & -> & _).
    { by eapply isSubTest_parent. }
    { subst s1. simpl. by rewrite lookup_insert_ne. }
    cbn [bind]. destruct (runningTests s1 !! parent') as [runningParent|] eqn:Hrp.
    + case_decide; [|intros [= <-]; right; left; by eexists].
      match goal with
      | |- context [updateExecutionTimes runningParent ev ?s3] =>
          destruct (updateExecutionTimes_returns runningParent ev s3) as [s4 ->]
      end; [|done].
      unfold running. simpl. apply list_elem_of_fmap. exists (parent', runningParent).
      split; [done|]. by apply elem_of_map_to_list.
    + intros [Hstop|([b s2] & _ & Hrest)]%bind_Panic.
      * apply stopSiblings_no_panic in Hstop; [done| |done].
        apply Forall_forall. intros a Ha. by rewrite Hp in Ha.
      * cbn [fst snd] in Hrest. destruct b; [done|by apply Hfinish in Hrest].
  - unfold handlePause. destruct (runningTests s !! Test ev); [|done].
    match goal with
    | |- context [updateRunningTests ev ?s2] =>
        by destruct (updateRunningTests_returns ev s2) as [s3 ->]
    end.
  - unfold handleCont. destruct (allTests s !! Test ev); [|done].
    by destruct (updateAll_returns ev s) as [s1 ->].
  - unfold handleStop. destruct (runningTests s !! Test ev) as [test|] eqn:Htest; [|done].
    assert (test ∈ running s) as Hin.
    { unfold running. apply list_elem_of_fmap. exists (Test ev, test).
      split; [done|]. by apply elem_of_map_to_list. }
    destruct (Parent (load s test)) as [parent|].
    + destruct (length (Children (load s parent))) as [|[|n]].
      * intros [= <-]. right; right. by eexists.
      * by destruct (updateExecutionTimes_returns test ev s Hin) as [s1 ->].
      * destruct (AssumedStopped (load s test)); [done|].
        by destruct (updateRunningTests_returns ev s) as [s1 ->].
    + by destruct (updateRunningTests_returns ev s) as [s1 ->].
  - intros [= <-]. by left.
Qed.

(** X4: in a state of a run, an event makes the program panic only
    through one of three of its [panic] statements: an unknown action, a
    running parent with more than one child, or a finished child whose
    parent has no children.  The program never divides by zero or
    follows a nil pointer while it handles an event, and the panic of
    line 143 never fires. *)
Theorem panics_are_explicit events s order ev msg :
  run initState events s → order ≡ₚ running s →
  processEvent order ev s = Panic msg →
  msg = "Unknown action: " +:+ Action ev ∨
  (∃ name, msg = "Running parent test has multiple running children: " +:+ name) ∨
  (∃ name, msg = "Parent test has no children: " +:+ name).
Proof.
  intros Hrun. apply processEvent_Panic.
  destruct (run_tidy _ _ _ wf_initState tidy_initState Hrun) as [_ Ht].
  apply (tidy_nonempty _ Ht).
Qed.

Lemma panics_are_explicit_witness :
  "Unknown action: fail" = "Unknown action: " +:+ Action (event "fail" "P/a" (ms 20)) ∨
  (∃ name, "Unknown action: fail"
           = "Running parent test has multiple running children: " +:+ name) ∨
  (∃ name, "Unknown action: fail" = "Parent test has no children: " +:+ name).
Proof.
  apply (panics_are_explicit scenarioE (finalState scenarioE)
           (running (finalState scenarioE)) (event "fail" "P/a" (ms 20))).
  - apply exec_run. vm_compute. reflexivity.
  - reflexivity.
  - vm_compute. reflexivity.
Defined.

(** ** The update loops and the hierarchy resolver, as a user sees them *)

(** X5: on a well-formed state [updateRunningTests] returns; it leaves
    both maps, the output and every record that is not running or is
    assumed stopped as they are, and it gives every other running record
    the event's time as [LastTimestamp], the time elapsed since its own
    [LastTimestamp] on top of its total time, and that time divided by
    the number of running tests not assumed stopped on top of its
    adjusted time. *)
Theorem uniform_advance ev s :
  wf s →
  ∃ s', updateRunningTests ev s = Ok s' ∧
        allTests s' = allTests s ∧ runningTests s' = runningTests s ∧
        stdout s' = stdout s ∧ length (heap s') = length (heap s) ∧
        ∀ b, load s' b =
               if decide (b ∈ running s ∧ AssumedStopped (load s b) = false)
               then advanced (Time ev) (activeCount s) (load s b)
               else load s b.
Proof.
  intros Hwf.
  destruct (updateRunningTests_spec ev s Hwf) as (s' & Hs' & Hr & Hload).
  exists s'. destruct Hr as (? & ? & ? & ? & _). split_and!; try done.
  intros b. rewrite Hload.
  destruct (decide (b ∈ active s)) as [Hb|Hb].
  - rewrite decide_True; [done|]. by apply elem_of_active.
  - rewrite decide_False; [done|]. intros ?. by apply Hb, elem_of_active.
Qed.

Lemma uniform_advance_witness :
  ∃ s', updateRunningTests (event "pass" "A" 10) (finalState scenarioThree) = Ok s' ∧
        allTests s' = allTests (finalState scenarioThree) ∧
        runningTests s' = runningTests (finalState scenarioThree) ∧
        stdout s' = stdout (finalState scenarioThree) ∧
        length (heap s') = length (heap (finalState scenarioThree)) ∧
        ∀ b, load s' b =
               if decide (b ∈ running (finalState scenarioThree) ∧
                          AssumedStopped (load (finalState scenarioThree) b) = false)
               then advanced 10 (activeCount (finalState scenarioThree))
                      (load (finalState scenarioThree) b)
               else load (finalState scenarioThree) b.
Proof.
  apply (uniform_advance (event "pass" "A" 10) (finalState scenarioThree)).
  apply (run_wf initState scenarioThree); [apply wf_initState|].
  apply exec_run. vm_compute. reflexivity.
Defined.

(** X6: on a well-formed state the outcome of the loops over
    [runningTests] that update times does not depend on the order in
    which the map is visited: neither the counting and updating loops of
    [updateRunningTests] nor the loop of [handleCont]. *)
Theorem update_order_irrelevant ev s order :
  wf s → order ≡ₚ running s →
  foldResult (λ a s', updateExecutionTimesWithCount a ev
                        (length (filter (λ a, AssumedStopped (load s a) = false) order)) s')
    order s
  = updateRunningTests ev s ∧
  foldResult (λ a s', updateExecutionTimes a ev s') order s
  = foldResult (λ a s', updateExecutionTimes a ev s') (running s) s.
Proof.
  intros Hwf Hp. split; [by apply updateRunningTests_order|by apply updateAll_order].
Qed.

Lemma update_order_irrelevant_witness :
  foldResult (λ a s', updateExecutionTimes a (event "cont" "A" 10) s')
    (reverse (running (finalState scenarioThree))) (finalState scenarioThree)
  = foldResult (λ a s', updateExecutionTimes a (event "cont" "A" 10) s')
      (running (finalState scenarioThree)) (finalState scenarioThree).
Proof.
  refine (proj2 (update_order_irrelevant (event "cont" "A" 10) (finalState scenarioThree)
                   (reverse (running (finalState scenarioThree))) _ _)).
  - apply (run_wf initState scenarioThree); [apply wf_initState|].
    apply exec_run. vm_compute. reflexivity.
  - apply reverse_Permutation.
Defined.



(** X8: [isSubTest] accepts exactly the names that match
    [^(?P<parent>\S+)/\S+$], that is the names without white space of
    the form [parent/leaf] with both parts non-empty, and the parent it
    returns is the longest the group can capture (the text before the
    last ['/'] that is not the last character); for any other name it
    returns the empty string and false. *)
Theorem isSubTest_regexp test :
  match isSubTest test with
  | (parent, true) =>
      matchesSubTest test parent ∧
      ∀ parent', matchesSubTest test parent' →
                 (String.length parent' ≤ String.length parent)%nat
  | (parent, false) =>
      parent = EmptyString ∧ ∀ parent', ¬ matchesSubTest test parent'
  end.
Proof.
  destruct (isSubTest test) as [parent [|]] eqn:H.
  - by apply isSubTest_matches.
  - by apply isSubTest_no_match.
Qed.

(** ** What a run keeps *)

(** X9: a record that is assumed stopped in a state of a run keeps that
    mark, its adjusted time and its total time through all further
    events, as long as none of them is a pause or a continue of the
    record's test. *)
Theorem assumed_stopped_is_frozen events0 s events s' (a : addr) :
  run initState events0 s → (a < length (heap s))%nat →
  AssumedStopped (load s a) = true →
  Forall (leavesAsleep (Name (load s a))) events → run s events s' →
  AssumedStopped (load s' a) = true ∧
  AdjustedExecutionTime (load s' a) = AdjustedExecutionTime (load s a) ∧
  TotalExecutionTime (load s' a) = TotalExecutionTime (load s a).
Proof.
  intros Hs Ha Hd Hevs Hrun.
  pose proof (run_wf _ _ _ wf_initState Hs) as Hwf.
  by destruct (run_frozen s events s' a Hwf Ha Hd Hevs Hrun) as (_ & ? & ? & ?).
Qed.

Lemma assumed_stopped_is_frozen_witness :
  AssumedStopped (load (finalState (scenarioE ++ scenarioEMore)) 1%nat) = true ∧
  AdjustedExecutionTime (load (finalState (scenarioE ++ scenarioEMore)) 1%nat)
    = AdjustedExecutionTime (load (finalState scenarioE) 1%nat) ∧
  TotalExecutionTime (load (finalState (scenarioE ++ scenarioEMore)) 1%nat)
    = TotalExecutionTime (load (finalState scenarioE) 1%nat).
Proof.
  apply (assumed_stopped_is_frozen scenarioE (finalState scenarioE) scenarioEMore).
  - apply exec_run. vm_compute. reflexivity.
  - vm_compute. lia.
  - vm_compute. reflexivity.
  - assert (Name (load (finalState scenarioE) 1%nat) = "P/a") as ->
      by (vm_compute; reflexivity).
    unfold scenarioEMore. rewrite !Forall_cons, Forall_nil.
    split_and!; try done; intros _; split; discriminate.
  - apply exec_run. vm_compute. reflexivity.
Defined.

Lemma nondecreasing_app now events1 events2 :
  nondecreasing now (events1 ++ events2) ↔
  nondecreasing now events1 ∧ nondecreasing (lastTime now events1) events2.
Proof.
  revert now. induction events1 as [|ev events1 IH]; intros now; simpl.
  - unfold lastTime. simpl. tauto.
  - rewrite IH. unfold lastTime. simpl. tauto.
Qed.

Lemma lastTime_later now events : nondecreasing now events → now ≤ lastTime now events.
Proof.
  revert now. induction events as [|ev events IH]; intros now; [unfold lastTime; simpl; lia|].
  intros [Hnow Hrest]. specialize (IH _ Hrest). unfold lastTime in *. simpl. lia.
Qed.

Lemma effect_grows ev a lo r r' :
  Time ev - lo ≤ maxDuration →
  effect ev a r r' → timely lo (Time ev) r →
  AdjustedExecutionTime r ≤ AdjustedExecutionTime r' ∧
  TotalExecutionTime r ≤ TotalExecutionTime r'.
Proof.
  intros Hspan Heff (Hlast & Hadj & Htot).
  destruct Heff as [r count r' Hd Hadv| | | | | |]; simpl; try lia.
  apply advance_Ok in Hadv as [Hc ->]. simpl.
  unfold maxDuration in Hspan.
  rewrite Sub_exact by (unfold inDuration, minDuration, maxDuration; lia).
  pose proof (quot_share (Time ev - LastTimestamp r) count ltac:(lia) Hc).
  rewrite !wrap64_id by (unfold inDuration, minDuration, maxDuration; lia).
  lia.
Qed.

Lemma effects_grow ev a lo r r' :
  Time ev - lo ≤ maxDuration →
  rtc (effect ev a) r r' → timely lo (Time ev) r →
  AdjustedExecutionTime r ≤ AdjustedExecutionTime r' ∧
  TotalExecutionTime r ≤ TotalExecutionTime r'.
Proof.
  intros Hspan. induction 1 as [|r1 r2 r3 Hstep _ IH]; [lia|]. intros Ht.
  pose proof (effect_grows _ _ _ _ _ Hspan Hstep Ht).
  pose proof (IH (effect_timely _ _ _ _ _ Hspan Hstep Ht)). lia.
Qed.

Lemma run_grows lo s events s' : ∀ now,
  wf s → lo ≤ now → nondecreasing now events →
  Forall (λ ev, Time ev - lo ≤ maxDuration) events →
  (∀ a, (a < length (heap s))%nat → timely lo now (load s a)) →
  run s events s' →
  (∀ a, (a < length (heap s'))%nat → timely lo (lastTime now events) (load s' a)) ∧
  ∀ a, (a < length (heap s))%nat →
       AdjustedExecutionTime (load s a) ≤ AdjustedExecutionTime (load s' a) ∧
       TotalExecutionTime (load s a) ≤ TotalExecutionTime (load s' a).
Proof.
  intros now Hwf Hlo Hnd Hspan Hinv Hrun. revert now Hwf Hlo Hnd Hspan Hinv.
  induction Hrun as [|s order ev s1 events s2 Hp Hstep _ IH];
    intros now Hwf Hlo Hnd Hspan Hinv.
  - split; [done|]. intros; lia.
  - destruct Hnd as [Hnow Hnd]. apply Forall_cons in Hspan as [Hev Hspan].
    destruct (good_processEvent order ev s s1) as [Hwf1 Hev1];
      [done|by apply order_valid|done|].
    pose proof (evolves_timely ev lo now s s1 ltac:(lia) Hev Hev1 Hinv) as Hinv1.
    destruct (IH (Time ev) Hwf1 ltac:(lia) Hnd Hspan Hinv1) as [Hfinal Hmono].
    split; [done|]. intros a Ha. destruct Hev1 as (Hlen & Hold & _).
    pose proof (effects_grow ev a lo _ _ Hev (Hold a Ha)
                  (timely_later lo now (Time ev) _ ltac:(lia) (Hinv a Ha))).
    pose proof (Hmono a ltac:(lia)). lia.
Qed.

(** X10: when the timestamps of a stream never decrease and none is more
    than the largest duration after the first, the adjusted time and the
    total time of a record never decrease in the course of the run. *)
Theorem times_never_decrease lo events1 events2 s1 s2 (a : addr) :
  nondecreasing lo (events1 ++ events2) →
  Forall (λ ev, Time ev - lo ≤ maxDuration) (events1 ++ events2) →
  run initState events1 s1 → run s1 events2 s2 →
  (a < length (heap s1))%nat →
  AdjustedExecutionTime (load s1 a) ≤ AdjustedExecutionTime (load s2 a) ∧
  TotalExecutionTime (load s1 a) ≤ TotalExecutionTime (load s2 a).
Proof.
  intros [Hnd1 Hnd2]%nondecreasing_app [Hsp1 Hsp2]%Forall_app Hrun1 Hrun2 Ha.
  assert (∀ b, (b < length (heap initState))%nat → timely lo lo (load initState b))
    as Hinit by (intros b Hb; simpl in Hb; lia).
  destruct (run_grows lo initState events1 s1 lo wf_initState ltac:(lia)
              Hnd1 Hsp1 Hinit Hrun1) as [Hinv1 _].
  pose proof (lastTime_later _ _ Hnd1) as Hlast.
  pose proof (run_wf _ _ _ wf_initState Hrun1) as Hwf1.
  by destruct (run_grows lo s1 events2 s2 _ Hwf1 Hlast Hnd2 Hsp2 Hinv1 Hrun2) as [_ Hmono];
    apply Hmono.
Qed.

Lemma times_never_decrease_witness :
  AdjustedExecutionTime (load (finalState (take 2 scenarioC)) 0%nat)
    ≤ AdjustedExecutionTime (load (finalState scenarioC) 0%nat) ∧
  TotalExecutionTime (load (finalState (take 2 scenarioC)) 0%nat)
    ≤ TotalExecutionTime (load (finalState scenarioC) 0%nat).
Proof.
  apply (times_never_decrease 0 (take 2 scenarioC) (drop 2 scenarioC)).
  - vm_compute. intuition discriminate.
  - repeat constructor; vm_compute; discriminate.
  - apply exec_run. vm_compute. reflexivity.
  - apply exec_run. vm_compute. reflexivity.
  - vm_compute. lia.
Defined.

(** ** The search for a running sibling *)

Lemma stopSiblings_false ev parent order : ∀ s s',
  stopSiblings order ev parent s = Ok (false, s') → s' = s.
Proof.
  induction order as [|rt order IH]; intros s s' Hrun; cbn [stopSiblings] in Hrun.
  - by injection Hrun as <-.
  - apply bind_Ok in Hrun as ([[|] s1] & Hstop & Hrest); cbn [fst snd] in Hrest; [done|].
    apply stopSibling_false in Hstop as ->. by apply IH.
Qed.

Lemma load_insertRunning k a s b : load (insertRunning k a s) b = load s b.
Proof. done. Qed.

Lemma load_deleteRunning k s b : load (deleteRunning k s) b = load s b.
Proof. done. Qed.

Lemma heap_insertRunning k a s : heap (insertRunning k a s) = heap s.
Proof. done. Qed.

Lemma heap_deleteRunning k s : heap (deleteRunning k s) = heap s.
Proof. done. Qed.

(** What a successful [stopSibling] has done. *)
Lemma stopSibling_true ev (rt new : addr) parent s fuel : ∀ (ps : addr) s',
  wf s → allTests s !! Test ev = Some new → (ps ≤ rt)%nat → (rt < new)%nat →
  stopSibling fuel ev rt ps parent s = Ok (true, s') →
  ∃ p : addr,
    (p < rt)%nat ∧ Name (load s p) = parent ∧
    (∃ n, ancestor (S n) s ps = Some p ∧
          ∀ m q, (m < n)%nat → ancestor (S m) s ps = Some q →
                 Name (load s q) ≠ parent) ∧
    Parallel (load s rt) = false ∧ AssumedStopped (load s rt) = false ∧
    allTests s' = allTests s ∧
    runningTests s' = <[Test ev := new]> (runningTests s) ∧
    stdout s' = stdout s ∧ length (heap s') = length (heap s) ∧
    ∀ b, load s' b =
           if decide (b = new) then setParent (Some p) (load s new)
           else if decide (b = rt)
                then setAssumedStopped true
                       (advanced (Time ev) (activeCount s) (load s rt))
           else if decide (b = p)
                then setChildren (Children (load s p) ++ [new]) (load s p)
           else load s b.
Proof.
  induction fuel as [|fuel IH]; intros ps s' Hwf Hnew Hps Hrt; simpl; [done|].
  destruct (wf_all _ Hwf _ _ Hnew) as [Hnewlt _].
  destruct (Parent (load s ps)) as [p|] eqn:Hp; [|done].
  assert (p < ps)%nat as Hpps by (apply (wf_parent _ Hwf ps p); [lia|done]).
  destruct (bool_decide (Name (load s p) = parent)
            && negb (Parallel (load s rt)) && negb (AssumedStopped (load s rt))) eqn:Hc.
  - apply andb_true_iff in Hc as [Hc Hnd]. apply andb_true_iff in Hc as [Hname Hnp].
    apply negb_true_iff in Hnd, Hnp. apply bool_decide_eq_true in Hname.
    intros (s1 & Hs1 & (new' & Hlook & [= <-])%bind_Ok)%bind_Ok.
    unfold updateExecutionTimes in Hs1. rewrite Hnd in Hs1.
    apply bind_Ok in Hs1 as (r' & Hadv & [= <-]).
    apply advance_Ok in Hadv as [Hcount ->]. fold (advanced (Time ev) (activeCount s) (load s rt)) in *.
    unfold lookupAll in Hlook. simpl in Hlook. rewrite Hnew in Hlook. injection Hlook as <-.
    exists p. split_and!; try done.
    { lia. }
    { exists 0%nat. split; [done|]. intros m q Hm. lia. }
    { by rewrite heap_insertRunning, !length_modify. }
    intros b. rewrite load_insertRunning, !load_modify, !length_modify.
    repeat case_decide; try done; try (exfalso; lia); try (exfalso; naive_solver lia).
  - destruct (Parent (load s p)); [|done].
    intros Hrec.
    destruct (IH p s' Hwf Hnew ltac:(lia) Hrt Hrec)
      as (q & Hlt & Hname & (n & Hn & Hnear) & Hq).
    exists q. split; [lia|]. split; [done|]. split; [|done].
    exists (S n). split; [done|]. intros [|m] q' Hm; [|apply Hnear; lia].
    intros [= <-]. destruct Hq as (Hpar & Hd & _). rewrite Hpar, Hd in Hc.
    rewrite !andb_true_r in Hc. by apply bool_decide_eq_false in Hc.
Qed.

Lemma stopSibling_false_flags ev rt parent s fuel : ∀ (ps : addr) s',
  wf s → (ps < fuel)%nat → (ps < length (heap s))%nat →
  stopSibling fuel ev rt ps parent s = Ok (false, s') →
  Parallel (load s rt) = true ∨ AssumedStopped (load s rt) = true ∨
  ∀ n p, ancestor (S n) s ps = Some p → Name (load s p) ≠ parent.
Proof.
  induction fuel as [|fuel IH]; intros ps s' Hwf Hfuel Hps; [lia|]. cbn [stopSibling].
  destruct (Parent (load s ps)) as [p|] eqn:Hp;
    [|intros _; right; right; intros n p'; cbn [ancestor]; by rewrite Hp].
  pose proof (wf_parent _ Hwf _ _ Hps Hp) as Hlt.
  destruct (bool_decide (Name (load s p) = parent)
            && negb (Parallel (load s rt)) && negb (AssumedStopped (load s rt))) eqn:Hc.
  - intros (s1 & _ & (new' & _ & [=])%bind_Ok)%bind_Ok.
  - destruct (Parallel (load s rt)) eqn:Hpar; [by left|].
    destruct (AssumedStopped (load s rt)) eqn:Hd; [by right; left|].
    rewrite !andb_true_r in Hc. apply bool_decide_eq_false in Hc.
    destruct (Parent (load s p)) as [q|] eqn:Hq.
    + intros Hrec.
      destruct (IH p s' Hwf ltac:(lia) ltac:(lia) Hrec) as [?|[?|Hnone]]; [done|done|].
      right; right. intros n p'. cbn [ancestor]. rewrite Hp.
      destruct n as [|n]; [by intros [= <-]|apply Hnone].
    + intros _. right; right. intros n p'. cbn [ancestor]. rewrite Hp.
      destruct n as [|n]; [by intros [= <-]|]. cbn [ancestor]. by rewrite Hq.
Qed.

Lemma stopSiblings_spec ev (new : addr) parent order s b s' :
  wf s → allTests s !! Test ev = Some new →
  Forall (λ rt, rt ∈ running s ∧ (rt < new)%nat) order →
  stopSiblings order ev parent s = Ok (b, s') →
  if b then
    ∃ before rt after (p : addr),
      order = before ++ rt :: after ∧
      Forall (λ x, ¬ eligible s parent x) before ∧ eligible s parent rt ∧
      (p < rt)%nat ∧ Name (load s p) = parent ∧
      (∃ n, ancestor (S n) s rt = Some p ∧
            ∀ m q, (m < n)%nat → ancestor (S m) s rt = Some q →
                   Name (load s q) ≠ parent) ∧
      allTests s' = allTests s ∧
      runningTests s' = <[Test ev := new]> (runningTests s) ∧
      length (heap s') = length (heap s) ∧
      ∀ x, load s' x =
             if decide (x = new) then setParent (Some p) (load s new)
             else if decide (x = rt)
                  then setAssumedStopped true
                         (advanced (Time ev) (activeCount s) (load s rt))
             else if decide (x = p)
                  then setChildren (Children (load s p) ++ [new]) (load s p)
             else load s x
  else s' = s ∧ Forall (λ x, ¬ eligible s parent x) order.
Proof.
  intros Hwf Hnew. revert b s'.
  induction order as [|rt order IH]; intros b s' Hord Hrun; cbn [stopSiblings] in Hrun.
  - injection Hrun as <- <-. by split.
  - apply Forall_cons in Hord as [[Hrt Hlt] Hord].
    pose proof (running_valid _ _ Hwf Hrt) as Hval.
    apply bind_Ok in Hrun as ([[|] s1] & Hstop & Hrest); cbn [fst snd] in Hrest.
    + injection Hrest as <- <-.
      destruct (stopSibling_true _ _ _ _ _ _ _ _ Hwf Hnew (le_n rt) Hlt Hstop)
        as (p & Hp & Hname & (n & Hn & Hnear) & Hpar & Hd & Hall & Hru & _ & Hlen & Hload).
      exists [], rt, order, p. split; [done|]. split; [constructor|].
      split; [split_and!; eauto|]. split; [done|]. split; [done|].
      split; [by exists n|]. split_and!; done.
    + assert (rt < S (length (heap s)))%nat as Hfuel by lia.
      pose proof (stopSibling_false_flags _ _ _ _ _ _ _ Hwf Hfuel Hval Hstop) as Hnot.
      apply stopSibling_false in Hstop as ->.
      assert (¬ eligible s parent rt) as Hne.
      { intros (Hpar & Hd & n & p & Hanc & Hname).
        destruct Hnot as [?|[?|Hnone]]; [congruence|congruence|].
        by apply (Hnone n p). }
      specialize (IH b s' Hord Hrest). destruct b.
      * destruct IH as (before & rt' & after & p & -> & Hbefore & Hrest').
        exists (rt :: before), rt', after, p. split; [done|].
        split; [by constructor|done].
      * destruct IH as [-> Hall]. split; [done|by constructor].
Qed.

(** X11: the search of [handleRun] for a running sibling, on a
    well-formed state in which the new test is registered at [new] and
    the tests visited are running tests: it stops the first test in the
    order of the visit that is neither parallel nor assumed stopped and
    has an ancestor named [parent].  That test gets its share of the
    time up to the event and is marked assumed stopped, the new record
    becomes a child of that ancestor, the nearest one so named, and
    enters [runningTests]; nothing else changes.  When no test visited
    is eligible the state is left as it is. *)
Theorem sibling_inference ev (new : addr) parent order s b s' :
  wf s → allTests s !! Test ev = Some new →
  Forall (λ rt, rt ∈ running s ∧ (rt < new)%nat) order →
  stopSiblings order ev parent s = Ok (b, s') →
  if b then
    ∃ before rt after (p : addr),
      order = before ++ rt :: after ∧
      Forall (λ x, ¬ eligible s parent x) before ∧ eligible s parent rt ∧
      (p < rt)%nat ∧ Name (load s p) = parent ∧
      (∃ n, ancestor (S n) s rt = Some p ∧
            ∀ m q, (m < n)%nat → ancestor (S m) s rt = Some q →
                   Name (load s q) ≠ parent) ∧
      allTests s' = allTests s ∧
      runningTests s' = <[Test ev := new]> (runningTests s) ∧
      length (heap s') = length (heap s) ∧
      ∀ x, load s' x =
             if decide (x = new) then setParent (Some p) (load s new)
             else if decide (x = rt)
                  then setAssumedStopped true
                         (advanced (Time ev) (activeCount s) (load s rt))
             else if decide (x = p)
                  then setChildren (Children (load s p) ++ [new]) (load s p)
             else load s x
  else s' = s ∧ Forall (λ x, ¬ eligible s parent x) order.
Proof. apply stopSiblings_spec. Qed.


Lemma sibling_inference_witness :
  ∃ rt p : addr,
    eligible (allocate (event "run" "P/a2" (ms 10)) (finalState (take 2 scenarioE))) "P" rt ∧
    (p < rt)%nat ∧
    load (finalState scenarioE) 2%nat
    = setParent (Some p)
        (load (allocate (event "run" "P/a2" (ms 10)) (finalState (take 2 scenarioE))) 2%nat).
Proof.
  set (ev := event "run" "P/a2" (ms 10)).
  set (s := allocate ev (finalState (take 2 scenarioE))).
  assert (wf s) as Hwf.
  { apply (good_alloc ev (finalState (take 2 scenarioE))).
    apply (run_wf initState (take 2 scenarioE)); [apply wf_initState|].
    apply exec_run. vm_compute. reflexivity. }
  assert (allTests s !! Test ev = Some 2%nat) as Hnew by (vm_compute; reflexivity).
  assert (Forall (λ rt : addr, rt ∈ running s ∧ (rt < 2)%nat) [1%nat]) as Hord.
  { assert (running s = [1%nat]) as -> by (vm_compute; reflexivity).
    apply Forall_singleton. split; [apply list_elem_of_here|lia]. }
  assert (stopSiblings [1%nat] ev "P" s = Ok (true, finalState scenarioE)) as Hstop
    by (vm_compute; reflexivity).
  destruct (sibling_inference ev 2%nat "P" [1%nat] s true (finalState scenarioE)
              Hwf Hnew Hord Hstop)
    as (before & rt & after & p & _ & _ & Hel & Hlt & _ & _ & _ & _ & _ & Hload).
  exists rt, p. split_and!; [done|done|].
  rewrite (Hload 2%nat). by rewrite decide_True.
Defined.

(** ** What the handlers leave behind *)

Lemma handlePause_maps ev s s' :
  handlePause ev s = Ok s' →
  runningTests s' !! Test ev = None ∧ allTests s' = allTests s ∧
  length (heap s') = length (heap s).
Proof.
  unfold handlePause. destruct (runningTests s !! Test ev) as [pausedTest|] eqn:Hrun.
  - intros (s1 & Hupd & [= <-])%bind_Ok.
    apply updateRunningTests_retimed in Hupd as (Hall & _ & _ & Hlen & _).
    split_and!; [apply lookup_delete_eq|exact Hall|].
    rewrite heap_deleteRunning, Hlen. by rewrite !length_modify.
  - by intros [= <-].
Qed.

Lemma handleStop_maps ev s s' :
  handleStop ev s = Ok s' →
  runningTests s' !! Test ev = None ∧ allTests s' = allTests s ∧
  length (heap s') = length (heap s).
Proof.
  unfold handleStop. destruct (runningTests s !! Test ev) as [test|] eqn:Hrun;
    [|by intros [= <-]].
  destruct (Parent (load s test)) as [parent|].
  - intros (s1 & Hs1 & [= <-])%bind_Ok.
    split; [apply lookup_delete_eq|]. rewrite heap_deleteRunning.
    change (allTests (deleteRunning (Test ev) s1)) with (allTests s1).
    destruct (length (Children (load s parent))) as [|[|n]]; [done| |].
    + apply bind_Ok in Hs1 as (s2 & Hupd & [= <-]).
      apply updateExecutionTimes_retimed in Hupd as (Hall & _ & _ & Hlen & _).
      split; [exact Hall|].
      by rewrite length_modify, heap_insertRunning, length_modify.
    + apply bind_Ok in Hs1 as (s2 & Hupd & [= <-]).
      rewrite length_modify. change (allTests (modify _ _ s2)) with (allTests s2).
      destruct (AssumedStopped (load s test)); [by injection Hupd as <-|].
      by apply updateRunningTests_retimed in Hupd as (Hall & _ & _ & Hlen & _).
  - intros (s1 & Hupd & [= <-])%bind_Ok.
    apply updateRunningTests_retimed in Hupd as (Hall & _ & _ & Hlen & _).
    split_and!; [apply lookup_delete_eq|exact Hall|by rewrite heap_deleteRunning].
Qed.

(** X12: after a pause event or an end event ([pass], [skip]) that is
    handled without panic, the test of the event is not among the
    running tests, whether it was before or not; no record is allocated
    and [allTests] is as it was. *)
Theorem stopped_test_leaves_running order ev s s' :
  Test ev ≠ EmptyString → Action ev ∈ ["pause"; "pass"; "skip"] →
  processEvent order ev s = Ok s' →
  runningTests s' !! Test ev = None ∧ allTests s' = allTests s ∧
  length (heap s') = length (heap s).
Proof.
  intros Hne Hact. unfold processEvent. rewrite decide_False by done.
  assert (Action ev = "pause" ∨ Action ev = "pass" ∨ Action ev = "skip") as [H|[H|H]]
    by (repeat (apply elem_of_cons in Hact as [?|Hact]; [by eauto|]);
        by apply elem_of_nil in Hact).
  all: rewrite H; decide_strings.
  - apply handlePause_maps.
  - apply handleStop_maps.
  - apply handleStop_maps.
Qed.

Lemma stopped_test_leaves_running_witness :
  runningTests (finalState (scenarioSub ++ [pauseSub])) !! "P/a" = None ∧
  allTests (finalState (scenarioSub ++ [pauseSub])) = allTests (finalState scenarioSub) ∧
  length (heap (finalState (scenarioSub ++ [pauseSub])))
    = length (heap (finalState scenarioSub)).
Proof.
  apply (stopped_test_leaves_running (running (finalState scenarioSub)) pauseSub).
  - discriminate.
  - apply list_elem_of_here.
  - vm_compute. reflexivity.
Defined.

(** The loop of [handleCont] is the uniform advance of [updateRunningTests]. *)
Lemma updateAll_uniform ev s :
  foldResult (λ a s, updateExecutionTimes a ev s) (running s) s = updateRunningTests ev s.
Proof. apply (updateAll_fixed ev s (running s) s), retimed_refl. Qed.

Lemma handleCont_spec ev s s' (test : addr) :
  wf s → allTests s !! Test ev = Some test → handleCont ev s = Ok s' →
  runningTests s' = <[Test ev := test]> (runningTests s) ∧
  allTests s' = allTests s ∧ length (heap s') = length (heap s) ∧
  ∀ b, load s' b =
         if decide (b = test)
         then setAssumedStopped false
                (setLastTimestamp (Time ev)
                   (if decide (test ∈ active s)
                    then advanced (Time ev) (activeCount s) (load s test)
                    else load s test))
         else if decide (b ∈ active s)
              then advanced (Time ev) (activeCount s) (load s b)
              else load s b.
Proof.
  intros Hwf Htest. unfold handleCont. rewrite Htest, updateAll_uniform.
  destruct (updateRunningTests_spec ev s Hwf) as (s1 & -> & Hret & Hload). cbn [bind].
  intros [= <-]. destruct (wf_all _ Hwf _ _ Htest) as [Hlt _].
  destruct Hret as (Hall & Hrun & _ & Hlen & _).
  split_and!.
  - unfold insertRunning. simpl. by rewrite Hrun.
  - exact Hall.
  - by rewrite heap_insertRunning, !length_modify.
  - intros b. rewrite load_insertRunning, !load_modify, !length_modify, Hlen.
    destruct (decide (b = test)) as [->|Hne].
    + rewrite !decide_True by done. by rewrite Hload.
    + rewrite !decide_False by (intros [? _]; done). apply Hload.
Qed.

(** X13: a continue event of a known test, on a state of a run, files
    the test's record among the running tests with the event's time as
    its clock and the assumed-stopped mark cleared, and advances the
    tests that were running as [updateRunningTests] does.  When the
    record was not running (the test was paused), its adjusted and total
    time are left as they were: the time between the pause and the
    continue is not counted for it. *)
Theorem continue_resumes events s order ev s' (test : addr) :
  run initState events s →
  Test ev ≠ EmptyString → Action ev = "cont" → allTests s !! Test ev = Some test →
  processEvent order ev s = Ok s' →
  runningTests s' = <[Test ev := test]> (runningTests s) ∧
  allTests s' = allTests s ∧
  LastTimestamp (load s' test) = Time ev ∧ AssumedStopped (load s' test) = false ∧
  (∀ b, b ≠ test →
        load s' b = if decide (b ∈ active s)
                    then advanced (Time ev) (activeCount s) (load s b) else load s b) ∧
  (runningTests s !! Test ev ≠ Some test →
   AdjustedExecutionTime (load s' test) = AdjustedExecutionTime (load s test) ∧
   TotalExecutionTime (load s' test) = TotalExecutionTime (load s test)).
Proof.
  intros Hrun Hne Hact Htest. pose proof (run_wf _ _ _ wf_initState Hrun) as Hwf.
  unfold processEvent. rewrite decide_False by done. rewrite Hact. decide_strings.
  intros (Hru & Hall & _ & Hload)%(handleCont_spec _ _ _ test); [|done|done].
  split_and!; [done|done|by rewrite Hload, decide_True|by rewrite Hload, decide_True| |].
  - intros b Hb. by rewrite Hload, decide_False.
  - intros Hnot. rewrite Hload, decide_True by done. rewrite decide_False; [done|].
    intros [Hin _]%elem_of_active. apply Hnot.
    unfold running in Hin. apply list_elem_of_fmap in Hin as [[k a] [-> Hin]].
    apply elem_of_map_to_list in Hin. simpl in *.
    destruct (wf_running _ Hwf _ _ Hin) as [_ Hname].
    destruct (wf_all _ Hwf _ _ Htest) as [_ Hname']. congruence.
Qed.

Lemma continue_resumes_witness :
  runningTests (finalState (scenarioSub ++ [pauseSub; event "cont" "P/a" (ms 6)])) !! "P/a"
    = Some 1%nat ∧
  AdjustedExecutionTime
    (load (finalState (scenarioSub ++ [pauseSub; event "cont" "P/a" (ms 6)])) 1%nat)
    = ms 5.
Proof.
  assert (run initState (scenarioSub ++ [pauseSub]) (finalState (scenarioSub ++ [pauseSub])))
    as Hrun by (apply exec_run; vm_compute; reflexivity).
  destruct (continue_resumes _ _ (running (finalState (scenarioSub ++ [pauseSub])))
              (event "cont" "P/a" (ms 6))
              (finalState (scenarioSub ++ [pauseSub; event "cont" "P/a" (ms 6)]))
              1%nat Hrun)
    as (Hru & _ & _ & _ & _ & Hsame).
  - discriminate.
  - reflexivity.
  - vm_compute. reflexivity.
  - vm_compute. reflexivity.
  - split.
    + rewrite Hru. apply lookup_insert_eq.
    + destruct Hsame as [-> _]; [|vm_compute; reflexivity].
      vm_compute. discriminate.
Defined.

(** ** The report, line by line *)

Lemma mapResult_cases {A B} (f : A → Result B) l :
  match mapResult f l with
  | Ok bs => Forall2 (λ a b, f a = Ok b) l bs
  | Panic msg => ∃ a, a ∈ l ∧ f a = Panic msg
  | OutOfFuel => ∃ a, a ∈ l ∧ f a = OutOfFuel
  end.
Proof.
  induction l as [|a l IH]; simpl; [constructor|].
  destruct (f a) as [b| |] eqn:Hfa; simpl.
  - destruct (mapResult f l) as [bs| |]; simpl.
    + by constructor.
    + destruct IH as (a' & ? & ?). exists a'. split; [by right|done].
    + destruct IH as (a' & ? & ?). exists a'. split; [by right|done].
  - exists a. split; [left|done].
  - exists a. split; [left|done].
Qed.

(** X14: the report of a state of a run, for the keys in an order the
    sort may leave.  It either prints one line for each of the first 50
    keys (all of them when there are fewer), each line with the rounded
    times of the key's record and, when they differ, their truncated
    quotient; or it panics, and then by the division by zero at a key
    whose rounded adjusted time is zero and whose rounded total time is
    not. *)
Theorem report_lines events s keys :
  run initState events s → sortedKeys s keys →
  match report keys s with
  | Ok lines =>
      length lines = (resultsToList `min` size (allTests s))%nat ∧
      Forall2 (λ k line, ∃ a,
        allTests s !! k = Some a ∧
        line = mkReportLine (Package (load s a)) (Name (load s a))
                 (Round (AdjustedExecutionTime (load s a)) Millisecond)
                 (if decide (Round (AdjustedExecutionTime (load s a)) Millisecond
                             = Round (TotalExecutionTime (load s a)) Millisecond)
                  then None
                  else Some (Round (TotalExecutionTime (load s a)) Millisecond,
                             Z.quot (Round (TotalExecutionTime (load s a)) Millisecond)
                               (Round (AdjustedExecutionTime (load s a)) Millisecond))))
        (take resultsToList keys) lines
  | Panic msg =>
      msg = divideByZero ∧
      ∃ k a, k ∈ take resultsToList keys ∧ allTests s !! k = Some a ∧
             Round (AdjustedExecutionTime (load s a)) Millisecond = 0 ∧
             Round (TotalExecutionTime (load s a)) Millisecond ≠ 0
  | OutOfFuel => False
  end.
Proof.
  intros Hrun [Hperm _].
  assert (∀ k, k ∈ take resultsToList keys → is_Some (allTests s !! k)) as Hkeys.
  { intros k Hk%subseteq_take. rewrite Hperm in Hk.
    apply list_elem_of_fmap in Hk as [[k' a] [-> Hin]].
    apply elem_of_map_to_list in Hin. by exists a. }
  destruct (report keys s) as [lines|msg|] eqn:Hrep.
  - split; [|by eapply report_of_run].
    apply mapResult_Ok, Forall2_length in Hrep. rewrite <-Hrep, length_take, Hperm.
    by rewrite length_fmap, length_map_to_list.
  - pose proof (mapResult_cases (λ k, do a <- lookupAll k s; reportLine (load s a))
                  (take resultsToList keys)) as Hcases.
    unfold report in Hrep. rewrite Hrep in Hcases. destruct Hcases as (k & Hk & Hline).
    destruct (Hkeys k Hk) as [a Ha]. unfold lookupAll in Hline. rewrite Ha in Hline.
    cbn [bind] in Hline. unfold reportLine in Hline.
    repeat case_decide; try done. injection Hline as <-.
    split; [done|]. exists k, a. split_and!; [done|done|done|congruence].
  - pose proof (mapResult_cases (λ k, do a <- lookupAll k s; reportLine (load s a))
                  (take resultsToList keys)) as Hcases.
    unfold report in Hrep. rewrite Hrep in Hcases. destruct Hcases as (k & Hk & Hline).
    destruct (Hkeys k Hk) as [a Ha]. unfold lookupAll in Hline. rewrite Ha in Hline.
    cbn [bind] in Hline. unfold reportLine in Hline. by repeat case_decide.
Qed.

Lemma report_lines_witness :
  ∃ lines, report ["P/a"; "P"] (finalState scenarioC) = Ok lines ∧
           length lines = (resultsToList `min` size (allTests (finalState scenarioC)))%nat.
Proof.
  assert (run initState scenarioC (finalState scenarioC)) as Hrun
    by (apply exec_run; vm_compute; reflexivity).
  assert (sortedKeys (finalState scenarioC) ["P/a"; "P"]) as Hkeys.
  { split.
    - assert ((map_to_list (allTests (finalState scenarioC))).*1 = ["P/a"; "P"]) as ->
        by (vm_compute; reflexivity).
      done.
    - repeat constructor; vm_compute; discriminate. }
  pose proof (report_lines scenarioC (finalState scenarioC) ["P/a"; "P"] Hrun Hkeys) as H.
  destruct (report ["P/a"; "P"] (finalState scenarioC)) as [lines|msg|] eqn:Hrep.
  - exists lines. split; [done|apply H].
  - exfalso. vm_compute in Hrep. discriminate.
  - destruct H.
Defined.

(** ** What a run event leaves behind *)

Lemma handleRun_spec order ev s s' :
  wf s → order ≡ₚ running s → handleRun order ev s = Ok s' →
  length (heap s') = S (length (heap s)) ∧
  allTests s' = <[Test ev := length (heap s)]> (allTests s) ∧
  runningTests s' !! Test ev = Some (length (heap s)) ∧
  ∃ parent,
    load s' (length (heap s)) = setParent parent (newTest ev) ∧
    (parent ≠ None → (isSubTest (Test ev)).2 = true) ∧
    ∀ p : addr, parent = Some p →
      (p < length (heap s))%nat ∧ last (Children (load s' p)) = Some (length (heap s)).
Proof.
  intros Hwf Hperm. unfold handleRun.
  pose proof (good_alloc ev s Hwf) as [Hwf1 _].
  set (new := length (heap s)) in *. set (s1 := mkState _ _ _ _) in *.
  assert (length (heap s1) = S new) as Hlen1
    by (subst s1 new; simpl; rewrite length_app; simpl; lia).
  assert (load s1 new = newTest ev) as Hnew1 by apply load_alloc_new.
  assert (allTests s1 !! Test ev = Some new) as Hall1 by apply lookup_insert_eq.
  assert (∀ a, a ∈ running s1 → (a < new)%nat) as Hold
    by (intros a Ha; by apply (running_valid s)).
  assert ((do s3 <- updateRunningTests ev s1; Ok (insertRunning (Test ev) new s3)) = Ok s' →
          length (heap s') = S new ∧ allTests s' = allTests s1 ∧
          runningTests s' !! Test ev = Some new ∧
          ∃ parent, load s' new = setParent parent (newTest ev) ∧
            (parent ≠ None → (isSubTest (Test ev)).2 = true) ∧
            ∀ p : addr, parent = Some p →
              (p < new)%nat ∧ last (Children (load s' p)) = Some new) as Hfinish.
  { destruct (updateRunningTests_spec ev s1 Hwf1) as (s3 & -> & Hret & Hload). cbn [bind].
    intros [= <-]. destruct Hret as (Hall & _ & _ & Hlen & _).
    split_and!; [by rewrite heap_insertRunning, Hlen|exact Hall|apply lookup_insert_eq|].
    exists None. split_and!; [|done|done].
    rewrite load_insertRunning, Hload, decide_False; [by rewrite Hnew1|].
    intros [Hin _]%elem_of_active. apply Hold in Hin. lia. }
  destruct (isSubTest (Test ev)) as [parent [|]] eqn:Hsub; [|exact Hfinish].
  intros (parent' & _ & Hrest)%bind_Ok.
  destruct (runningTests s1 !! parent') as [runningParent|] eqn:Hrp.
  - destruct (wf_running _ Hwf _ _ Hrp) as [Hrplt _]. fold new in Hrplt.
    case_decide as Hone; [|done].
    apply bind_Ok in Hrest as (s4 & Hupd & [= <-]).
    assert (load s4 new = setParent (Some runningParent) (newTest ev)) as Hnew4.
    { apply updateExecutionTimes_Ok in Hupd as [->|(_ & r' & _ & ->)].
      - rewrite load_modify_ne by lia. rewrite load_modify_eq by lia. by rewrite Hnew1.
      - rewrite !load_modify_ne by lia. rewrite load_modify_eq by lia. by rewrite Hnew1. }
    apply updateExecutionTimes_retimed in Hupd.
    pose proof (retimed_flags _ _ runningParent Hupd) as (_ & _ & Hchp & _).
    destruct Hupd as (Hall & _ & _ & Hlen & _).
    split_and!.
    + by rewrite heap_insertRunning, heap_deleteRunning, Hlen, !length_modify.
    + exact Hall.
    + apply lookup_insert_eq.
    + exists (Some runningParent).
      rewrite load_insertRunning, load_deleteRunning.
      split_and!; [done|done|].
      intros p [= <-]. split; [done|].
      rewrite load_insertRunning, load_deleteRunning, Hchp.
      rewrite load_modify_eq by (rewrite length_modify; lia).
      simpl. apply last_snoc.
  - apply bind_Ok in Hrest as ([b s2] & Hstop & Hrest). cbn [fst snd] in Hrest.
    assert (Forall (λ rt : addr, rt ∈ running s1 ∧ (rt < new)%nat) order) as Hord.
    { apply Forall_forall. intros rt Hrt. rewrite Hperm in Hrt.
      split; [exact Hrt|by apply Hold]. }
    pose proof (stopSiblings_spec ev new parent' order s1 b s2 Hwf1 Hall1 Hord Hstop)
      as Hspec.
    destruct b.
    + injection Hrest as <-.
      destruct Hspec as (before & rt & after & p & Horder & _ & _ & Hp & _ & _ & Hall
                         & Hrun & Hlen & Hload).
      assert (rt < new)%nat as Hrt.
      { apply Forall_forall with (x := rt) in Hord as [_ ?]; [done|].
        rewrite Horder. apply elem_of_app. right. left. }
      split_and!; [by rewrite Hlen|exact Hall|rewrite Hrun; apply lookup_insert_eq|].
      exists (Some p). split_and!; [|done|].
      * by rewrite Hload, decide_True, Hnew1.
      * intros ? [= <-]. split; [lia|].
        rewrite Hload, decide_False, decide_False, decide_True by lia.
        simpl. apply last_snoc.
    + destruct Hspec as [-> _]. by apply Hfinish.
Qed.

(** X15: a run event read in a state of a run allocates one record for
    its test and files it under the test's name in [allTests] and in
    [runningTests].  When the event has been handled the record still
    has the event's package and time and no time accumulated, no
    children and no mark; its parent, if it got one, is a record of an
    earlier event whose last child it now is, and only a subtest gets a
    parent. *)
Theorem run_event_registers events s order ev s' :
  run initState events s → order ≡ₚ running s →
  Test ev ≠ EmptyString → Action ev = "run" →
  processEvent order ev s = Ok s' →
  length (heap s') = S (length (heap s)) ∧
  allTests s' = <[Test ev := length (heap s)]> (allTests s) ∧
  runningTests s' !! Test ev = Some (length (heap s)) ∧
  ∃ parent,
    load s' (length (heap s)) = setParent parent (newTest ev) ∧
    (parent ≠ None → (isSubTest (Test ev)).2 = true) ∧
    ∀ p : addr, parent = Some p →
      (p < length (heap s))%nat ∧ last (Children (load s' p)) = Some (length (heap s)).
Proof.
  intros Hrun Hperm Hne Hact. pose proof (run_wf _ _ _ wf_initState Hrun) as Hwf.
  unfold processEvent. rewrite decide_False by done. rewrite decide_True by done.
  by apply handleRun_spec.
Qed.

Lemma run_event_registers_witness :
  runningTests (finalState scenarioE) !! "P/a2" = Some 2%nat ∧
  ∃ parent, load (finalState scenarioE) 2%nat
            = setParent parent (newTest (event "run" "P/a2" (ms 10))).
Proof.
  assert (run initState (take 2 scenarioE) (finalState (take 2 scenarioE))) as Hrun
    by (apply exec_run; vm_compute; reflexivity).
  destruct (run_event_registers (take 2 scenarioE) (finalState (take 2 scenarioE))
              (running (finalState (take 2 scenarioE))) (event "run" "P/a2" (ms 10))
              (finalState scenarioE) Hrun)
    as (_ & _ & Hru & parent & Hload & _).
  - reflexivity.
  - discriminate.
  - reflexivity.
  - vm_compute. reflexivity.
  - assert (length (heap (finalState (take 2 scenarioE))) = 2%nat) as Hlen
      by (vm_compute; reflexivity).
    rewrite Hlen in Hru, Hload. split; [exact Hru|by exists parent].
Defined.

(** ** The end of the last child *)

Lemma handleStop_last_child ev s s' (test parent : addr) :
  wf s → runningTests s !! Test ev = Some test →
  Parent (load s test) = Some parent → length (Children (load s parent)) = 1%nat →
  handleStop ev s = Ok s' →
  runningTests s'
    = delete (Test ev) (<[Name (load s parent) := parent]> (runningTests s)) ∧
  allTests s' = allTests s ∧ length (heap s') = length (heap s) ∧
  ∀ b, load s' b =
         if decide (b = parent)
         then setLastTimestamp (Time ev) (setChildren [] (load s parent))
         else if decide (b = test ∧ AssumedStopped (load s test) = false)
              then advanced (Time ev) (activeCount s) (load s test)
              else load s b.
Proof.
  intros Hwf Htest Hparent Hone. unfold handleStop. rewrite Htest, Hparent, Hone.
  destruct (wf_running _ Hwf _ _ Htest) as [Hlt _].
  pose proof (wf_parent _ Hwf _ _ Hlt Hparent) as Hplt.
  intros (s1 & (s2 & Hupd & [= <-])%bind_Ok & [= <-])%bind_Ok.
  assert (allTests s2 = allTests s ∧ runningTests s2 = runningTests s ∧
          length (heap s2) = length (heap s) ∧
          ∀ b, load s2 b = if decide (b = test ∧ AssumedStopped (load s test) = false)
                           then advanced (Time ev) (activeCount s) (load s test)
                           else load s b) as (Hall & Hrun & Hlen & Hload).
  { unfold updateExecutionTimes in Hupd.
    destruct (AssumedStopped (load s test)) eqn:Hd.
    - injection Hupd as <-. split_and!; try done.
      intros b. rewrite decide_False; [done|]. by intros [_ ?].
    - apply bind_Ok in Hupd as (r' & Hadv & [= <-]).
      apply advance_Ok in Hadv as [_ ->].
      fold (advanced (Time ev) (activeCount s) (load s test)).
      split_and!; [done|done|apply length_modify|].
      intros b. rewrite load_modify. destruct (decide (b = test)) as [->|Hne].
      + by rewrite !decide_True.
      + rewrite !decide_False; [done|by intros [? _]|by intros [? _]]. }
  assert (load s2 parent = load s parent) as Hp2.
  { rewrite Hload, decide_False; [done|]. intros [? _]. lia. }
  split_and!.
  - unfold deleteRunning, insertRunning. simpl.
    rewrite load_modify_eq by lia. simpl. by rewrite Hp2, Hrun.
  - exact Hall.
  - by rewrite heap_deleteRunning, length_modify, heap_insertRunning, length_modify.
  - intros b. rewrite load_deleteRunning, load_modify, heap_insertRunning, length_modify.
    rewrite !load_insertRunning.
    destruct (decide (b = parent)) as [->|Hne].
    + rewrite decide_True by (split; [done|lia]).
      rewrite load_modify_eq by lia. by rewrite Hp2.
    + rewrite decide_False by (by intros [? _]).
      rewrite load_modify_ne by done. apply Hload.
Qed.

(** X16: the end ([pass] or [skip]) of a running test that is the one
    child its parent has left, in a state of a run.  The parent is filed
    among the running tests again with the event's time as its clock,
    no children and its accumulated times as they were; the test gets
    its share of the time up to the event (unless it was assumed
    stopped) and leaves the running tests; no other record changes, so
    the other running tests are not advanced by this event. *)
Theorem last_child_resumes_parent events s order ev s' (test parent : addr) :
  run initState events s →
  Test ev ≠ EmptyString → Action ev ∈ ["pass"; "skip"] →
  runningTests s !! Test ev = Some test →
  Parent (load s test) = Some parent → length (Children (load s parent)) = 1%nat →
  processEvent order ev s = Ok s' →
  runningTests s'
    = delete (Test ev) (<[Name (load s parent) := parent]> (runningTests s)) ∧
  allTests s' = allTests s ∧
  ∀ b, load s' b =
         if decide (b = parent)
         then setLastTimestamp (Time ev) (setChildren [] (load s parent))
         else if decide (b = test ∧ AssumedStopped (load s test) = false)
              then advanced (Time ev) (activeCount s) (load s test)
              else load s b.
Proof.
  intros Hrun Hne Hact Htest Hparent Hone.
  pose proof (run_wf _ _ _ wf_initState Hrun) as Hwf.
  unfold processEvent. rewrite decide_False by done.
  assert (Action ev = "pass" ∨ Action ev = "skip") as [H|H]
    by (repeat (apply elem_of_cons in Hact as [?|Hact]; [by eauto|]);
        by apply elem_of_nil in Hact).
  all: rewrite H; decide_strings.
  all: intros (? & ? & _ & ?)%(handleStop_last_child _ _ _ test parent); done.
Qed.

Lemma last_child_resumes_parent_witness :
  runningTests (finalState (take 3 scenarioC))
    = delete "P/a" (<["P" := 0%nat]> (runningTests (finalState (take 2 scenarioC)))) ∧
  LastTimestamp (load (finalState (take 3 scenarioC)) 0%nat) = ms 15.
Proof.
  assert (run initState (take 2 scenarioC) (finalState (take 2 scenarioC))) as Hrun
    by (apply exec_run; vm_compute; reflexivity).
  destruct (last_child_resumes_parent (take 2 scenarioC) (finalState (take 2 scenarioC))
              (running (finalState (take 2 scenarioC))) (event "pass" "P/a" (ms 15))
              (finalState (take 3 scenarioC)) 1%nat 0%nat Hrun)
    as (Hru & _ & Hload).
  - discriminate.
  - apply list_elem_of_here.
  - vm_compute. reflexivity.
  - vm_compute. reflexivity.
  - vm_compute. reflexivity.
  - vm_compute. reflexivity.
  - split.
    + rewrite Hru. f_equal.
    + rewrite (Hload 0%nat). by rewrite decide_True.
Defined.
